(** * The tiered storage wrapper of [script.js]

    The first immediately-invoked function of [script.js] builds the object
    [storage]: a synchronous [getItem]/[setItem]/[removeItem]/[clear] facade
    over an in-memory cache (a plain JavaScript object), whose persistence
    functions are rebound by [init] to the first backend that works, tried in
    the order [localStorage], IndexedDB, an injected Android bridge, memory.

    The development has three layers:
    - [JS]: the fragment of JavaScript the wrapper relies on (primitive
      values, [String(v)], property access on an ordinary object with its
      prototype, [String.prototype.split], [decodeURIComponent]);
    - the host environment ([localStorage], IndexedDB, bridge objects,
      [document.cookie]) as data the initialisation runs against;
    - the wrapper itself, with explicit state passing: the closure variables
      [persistSet], [persistRemove], [persistClear] and the fields of
      [storage] form one record; a ghost [log] records, in order, which
      tier is being probed, every assignment to [storage.backend], every
      write or delete sent to a backend, every read from a bridge and every
      console warning (the enumeration of [localStorage] and of the
      IndexedDB cursor is not logged). *)

From Stdlib Require Import String Ascii List Bool Arith NArith Lia.
From stdpp Require Import base option strings list gmap.

Open Scope string_scope.
Open Scope list_scope.

(** ** JavaScript fragment *)

Module JS.

(** Primitive values that can reach the cache.  [setItem] only ever stores
    strings; the loaders store what the backend hands over. *)
Inductive value : Type :=
| VUndefined
| VNull
| VBool (b : bool)
| VStr (s : string).

(** Exceptions that matter to the wrapper. *)
Inductive exn : Type :=
| TypeError
| URIError
| DOMException.

(** Result of evaluating an expression: a value or a thrown exception. *)
Inductive completion (A : Type) : Type :=
| Normal (a : A)
| Throw (e : exn).
Arguments Normal {A} a.
Arguments Throw {A} e.

(** Settlement of a promise. [Pending] is a promise that never settles. *)
Inductive promise (A : Type) : Type :=
| Fulfilled (a : A)
| Rejected (reason : string)
| Pending.
Arguments Fulfilled {A} a.
Arguments Rejected {A} reason.
Arguments Pending {A}.

(** [String(v)] *)
Definition String_ (v : value) : string :=
  match v with
  | VUndefined => "undefined"
  | VNull => "null"
  | VBool true => "true"
  | VBool false => "false"
  | VStr s => s
  end.

(** Truthiness of a string: [if (k)] *)
Definition truthy_string (s : string) : bool :=
  match s with
  | EmptyString => false
  | String _ _ => true
  end.

(** *** Ordinary objects

    The cache is created by the literal [{}]: an ordinary extensible object
    whose prototype is [Object.prototype].  Its own properties are data
    properties holding primitive values.  The prototype can only become
    [null] (through the inherited [__proto__] setter); no object value exists
    in [value], so no other prototype is reachable. *)
Inductive prototype : Type :=
| ObjectPrototype
| NullPrototype.

Record object : Type := mkObject {
  own : gmap string value;
  proto : prototype
}.

(** [{}] *)
Definition empty_object : object :=
  {| own := ∅; proto := ObjectPrototype |}.

(** [o[k] = v] (OrdinarySet).  An own data property is overwritten.  Otherwise
    the prototype chain decides: [Object.prototype] defines the accessor
    [__proto__], whose setter changes the prototype when [v] is [null] and
    ignores every other primitive; all other inherited properties are
    writable data properties, so an own property is created. *)
Definition put (o : object) (k : string) (v : value) : object :=
  match own o !! k with
  | Some _ => {| own := <[k := v]> (own o); proto := proto o |}
  | None =>
    match proto o with
    | ObjectPrototype =>
      if String.eqb k "__proto__" then
        match v with
        | VNull => {| own := own o; proto := NullPrototype |}
        | _ => o
        end
      else {| own := <[k := v]> (own o); proto := proto o |}
    | NullPrototype => {| own := <[k := v]> (own o); proto := proto o |}
    end
  end.

(** [delete o[k]] *)
Definition delete_property (o : object) (k : string) : object :=
  {| own := delete k (own o); proto := proto o |}.

(** [Object.prototype.hasOwnProperty.call(o, k)] *)
Definition has_own (o : object) (k : string) : bool :=
  match own o !! k with
  | Some _ => true
  | None => false
  end.

(** [o.hasOwnProperty(k)]: the method is found by an ordinary property
    lookup on [o].  An own property of that name shadows the built-in and
    holds a primitive, which is not callable; with a [null] prototype the
    lookup yields [undefined]. Both calls throw a [TypeError]. *)
Definition call_hasOwnProperty (o : object) (k : string) : completion bool :=
  match own o !! "hasOwnProperty" with
  | Some _ => Throw TypeError
  | None =>
    match proto o with
    | ObjectPrototype => Normal (has_own o k)
    | NullPrototype => Throw TypeError
    end
  end.

(** [o[k]] for an own property [k] ([undefined] stands for the properties
    that are not own; the wrapper reads [o[k]] only behind a successful
    [hasOwnProperty] test). *)
Definition get_own (o : object) (k : string) : value :=
  match own o !! k with
  | Some v => v
  | None => VUndefined
  end.

(** *** [String.prototype.split] with a non-empty separator *)

(** [skip] counts the characters of a matched separator that are still to be
    dropped; [cur] is the piece being collected. *)
Fixpoint split_go (sep s : string) (skip : nat) (cur : string) : list string :=
  match s with
  | EmptyString => [cur]
  | String a s' =>
    match skip with
    | S n => split_go sep s' n cur
    | O =>
      if String.prefix sep s
      then cur :: split_go sep s' (String.length sep - 1) ""
      else split_go sep s' 0 (cur +:+ String a EmptyString)
    end
  end.

Definition split (s sep : string) : list string := split_go sep s 0 "".

(** *** [decodeURIComponent]

    Strings are kept as their UTF-8 bytes.  Following the [Decode] operation
    of ECMA-262: a character other than [%] is copied; [%XX] below [0x80] is
    the character [XX]; a lead octet announces [n] octets, each written as
    [%XX], which together must be a well-formed UTF-8 sequence (Unicode table
    3-7: no overlong form, no surrogate, nothing above U+10FFFF).  Everything
    else throws a [URIError]. *)

Definition hex_value (a : ascii) : option N :=
  let n := N_of_ascii a in
  if (48 <=? n)%N && (n <=? 57)%N then Some (n - 48)%N
  else if (65 <=? n)%N && (n <=? 70)%N then Some (n - 55)%N
  else if (97 <=? n)%N && (n <=? 102)%N then Some (n - 87)%N
  else None.

(** What the decoder expects of the next octet of a multi-octet sequence:
    [remaining] octets are still missing, the next one within [lo..hi]. *)
Record expect : Type := mkExpect {
  remaining : nat;
  lo : N;
  hi : N;
  octets : string
}.

(** For a first octet [b >= 0x80]: the expectation it opens, if it is a legal
    lead octet. *)
Definition lead_octet (b : N) : option expect :=
  let one := String (ascii_of_N b) EmptyString in
  if (194 <=? b)%N && (b <=? 223)%N then Some (mkExpect 1 128 191 one)
  else if (b =? 224)%N then Some (mkExpect 2 160 191 one)
  else if (225 <=? b)%N && (b <=? 236)%N then Some (mkExpect 2 128 191 one)
  else if (b =? 237)%N then Some (mkExpect 2 128 159 one)
  else if (238 <=? b)%N && (b <=? 239)%N then Some (mkExpect 2 128 191 one)
  else if (b =? 240)%N then Some (mkExpect 3 144 191 one)
  else if (241 <=? b)%N && (b <=? 243)%N then Some (mkExpect 3 128 191 one)
  else if (b =? 244)%N then Some (mkExpect 3 128 143 one)
  else None.

Inductive decoder_state : Type :=
| Plain                                   (* outside an escape *)
| High (e : option expect)                (* after [%] *)
| Low (e : option expect) (h : N)         (* after [%] and one hex digit *)
| Escape (e : expect).                    (* inside a sequence: [%] must follow *)

(** One decoded octet [b] arrives while [e] is expected: the new state and
    the characters to output, or [None] for a [URIError]. *)
Definition octet_step (e : option expect) (b : N) : option (decoder_state * string) :=
  match e with
  | None =>
    if (b <? 128)%N then Some (Plain, String (ascii_of_N b) EmptyString)
    else match lead_octet b with
         | Some e' => Some (Escape e', "")
         | None => None
         end
  | Some e =>
    if (lo e <=? b)%N && (b <=? hi e)%N then
      let seen := octets e +:+ String (ascii_of_N b) EmptyString in
      match remaining e with
      | S (S n) => Some (Escape (mkExpect (S n) 128 191 seen), "")
      | _ => Some (Plain, seen)
      end
    else None
  end.

Fixpoint decode_go (st : decoder_state) (s : string) : option string :=
  match s with
  | EmptyString =>
    match st with
    | Plain => Some ""
    | _ => None
    end
  | String a s' =>
    match st with
    | Plain =>
      if Ascii.eqb a "%"%char then decode_go (High None) s'
      else option_map (String a) (decode_go Plain s')
    | Escape e =>
      if Ascii.eqb a "%"%char then decode_go (High (Some e)) s' else None
    | High e =>
      match hex_value a with
      | Some h => decode_go (Low e h) s'
      | None => None
      end
    | Low e h =>
      match hex_value a with
      | Some l =>
        match octet_step e (16 * h + l)%N with
        | Some (st', out) => option_map (String.append out) (decode_go st' s')
        | None => None
        end
      | None => None
      end
    end
  end.

(** [decodeURIComponent(s)] for a string argument. *)
Definition decodeURIComponent (s : string) : completion string :=
  match decode_go Plain s with
  | Some r => Normal r
  | None => Throw URIError
  end.

(** [decodeURIComponent(x)] where [x] may be [undefined] (a destructured
    array element that does not exist): the argument is first converted with
    [ToString]. *)
Definition decodeURIComponent_opt (x : option string) : completion string :=
  match x with
  | Some s => decodeURIComponent s
  | None => decodeURIComponent "undefined"
  end.

End JS.

Export JS.

(** ** Host environment *)

(** [window.localStorage]: the stored pairs in index order (keys are unique
    in a real store), and whether writing throws (quota exhausted).  Reading
    ([length], [key], [getItem]) and [removeItem] do not throw. *)
Record Storage : Type := mkLS {
  items : list (string * string);
  quota_exceeded : bool
}.

Fixpoint assoc_get (k : string) (l : list (string * string)) : option string :=
  match l with
  | [] => None
  | (k', v) :: r => if String.eqb k k' then Some v else assoc_get k r
  end.

Fixpoint assoc_set (k v : string) (l : list (string * string)) : list (string * string) :=
  match l with
  | [] => [(k, v)]
  | (k', v') :: r =>
    if String.eqb k k' then (k, v) :: r else (k', v') :: assoc_set k v r
  end.

Definition assoc_remove (k : string) (l : list (string * string)) : list (string * string) :=
  List.filter (fun p => negb (String.eqb k (fst p))) l.

(** [localStorage.length] *)
Definition ls_length (ls : Storage) : nat := length (items ls).

(** [localStorage.key(i)]: [null] ([None]) out of range *)
Definition ls_key (ls : Storage) (i : nat) : option string :=
  match items ls !! i with
  | Some (k, _) => Some k
  | None => None
  end.

(** [localStorage.getItem(k)]; a [null] key is looked up as ["null"] *)
Definition ls_getItem (ls : Storage) (k : option string) : value :=
  let name := match k with Some s => s | None => "null" end in
  match assoc_get name (items ls) with
  | Some v => VStr v
  | None => VNull
  end.

(** [localStorage.setItem(k, v)] *)
Definition ls_setItem (ls : Storage) (k v : string) : completion Storage :=
  if quota_exceeded ls then Throw DOMException
  else Normal {| items := assoc_set k v (items ls); quota_exceeded := false |}.

(** [localStorage.removeItem(k)] *)
Definition ls_removeItem (ls : Storage) (k : string) : Storage :=
  {| items := assoc_remove k (items ls); quota_exceeded := quota_exceeded ls |}.

(** How the cursor request over the object store ['kv'] ends: with a last
    [onsuccess] carrying a null cursor, with [onerror], or with no further
    event at all. *)
Inductive cursor_end : Type :=
| CursorEnd
| CursorError
| CursorSilent.

(** The database [indexedDB.open('migstar_db_v1', 1)] hands over.
    [has_kv = false]: the object store is missing, [db.transaction('kv', _)]
    throws.  [records] are the entries the cursor delivers, in key order,
    before it ends as [cursor]. *)
Record IDBDatabase : Type := mkDB {
  has_kv : bool;
  records : list (string * value);
  cursor : cursor_end
}.

(** [window.indexedDB] and what opening the database does. *)
Inductive IDBFactory : Type :=
| NoIndexedDB                      (* ['indexedDB' in window] is false *)
| OpenError                        (* [req.onerror] *)
| OpenSilent                       (* neither [onsuccess] nor [onerror] *)
| OpenSuccess (db : IDBDatabase).  (* [req.onsuccess] *)

(** An object found under one of the bridge names. [b_getItem] is [None]
    unless [typeof api.getItem === 'function']; the function may throw.
    Looking up a property of the object does not throw. *)
Record bridge : Type := mkBridge {
  b_setItem : bool;                                  (* typeof api.setItem === 'function' *)
  b_set : bool;                                      (* typeof api.set === 'function' *)
  b_getItem : option (string -> completion value);
  b_removeItem : bool                                (* api.removeItem is truthy *)
}.

(** Calls into a backend that the wrapper makes on behalf of its caller. *)
Inductive native_call : Type :=
| LS_setItem (k v : string)
| LS_removeItem (k : string)
| LS_clear
| IDB_put (v k : string)
| IDB_delete (k : string)
| IDB_clear
| Bridge_setItem (name k v : string)
| Bridge_set (name k v : string)
| Bridge_getItem (name k : string)
| Bridge_removeItem (name k : string).

Record environment : Type := mkEnv {
  window_localStorage : option Storage;   (* [None]: the access itself throws *)
  window_indexedDB : IDBFactory;
  window_global : string -> option bridge; (* [window[name]], [None] when falsy *)
  document_cookie : option string;        (* [None]: reading [document.cookie] throws *)
  native_throws : native_call -> bool     (* persistence calls that throw *)
}.

(** ** The wrapper *)

Inductive tier : Type :=
| SyncStore
| AsyncStore
| HostBridge
| Memory.

(** Ghost events, in the order they happen. *)
Inductive event : Type :=
| Probed (t : tier)            (* [tryLocalStorage] ... entered, or the fallback reached *)
| Assigned (tag : string)      (* [storage.backend = tag] *)
| Called (c : native_call)
| Warned (msg : string).       (* [console.warn] *)

(** The arrow functions the three [let persist...] variables can hold. *)
Inductive set_binding : Type :=
| SetNoop                               (* [(k,v)=>{}] *)
| SetLocalStorage
| SetIndexedDB
| SetBridgeSetItem (name : string)
| SetBridgeSet (name : string)
| SetBridgeWarn.

Inductive remove_binding : Type :=
| RemoveNoop
| RemoveLocalStorage
| RemoveIndexedDB
| RemoveBridge (name : string) (has_removeItem : bool).

Inductive clear_binding : Type :=
| ClearNoop
| ClearLocalStorage
| ClearIndexedDB.

(** The object [storage] together with the closure variables around it. *)
Record storage : Type := mkStorage {
  backend : string;
  _cache : object;
  _idb : option IDBDatabase;
  persistSet : set_binding;
  persistRemove : remove_binding;
  persistClear : clear_binding;
  throws : native_call -> bool;
  log : list event
}.

Definition set_backend (tag : string) (st : storage) : storage :=
  mkStorage tag (_cache st) (_idb st) (persistSet st) (persistRemove st)
            (persistClear st) (throws st) (log st ++ [Assigned tag]).

Definition set_cache (c : object) (st : storage) : storage :=
  mkStorage (backend st) c (_idb st) (persistSet st) (persistRemove st)
            (persistClear st) (throws st) (log st).

Definition set_idb (db : IDBDatabase) (st : storage) : storage :=
  mkStorage (backend st) (_cache st) (Some db) (persistSet st) (persistRemove st)
            (persistClear st) (throws st) (log st).

Definition set_persistSet (b : set_binding) (st : storage) : storage :=
  mkStorage (backend st) (_cache st) (_idb st) b (persistRemove st)
            (persistClear st) (throws st) (log st).

Definition set_persistRemove (b : remove_binding) (st : storage) : storage :=
  mkStorage (backend st) (_cache st) (_idb st) (persistSet st) b
            (persistClear st) (throws st) (log st).

Definition set_persistClear (b : clear_binding) (st : storage) : storage :=
  mkStorage (backend st) (_cache st) (_idb st) (persistSet st) (persistRemove st)
            b (throws st) (log st).

Definition emit (e : event) (st : storage) : storage :=
  mkStorage (backend st) (_cache st) (_idb st) (persistSet st) (persistRemove st)
            (persistClear st) (throws st) (log st ++ [e]).

(** The state right after the object literal and the three [let]s. *)
Definition initial (env : environment) : storage :=
  {| backend := "none"; _cache := empty_object; _idb := None;
     persistSet := SetNoop; persistRemove := RemoveNoop; persistClear := ClearNoop;
     throws := native_throws env; log := [] |}.

(** [try { call } catch(e) { console.warn(msg, e) }] *)
Definition try_call_warn (c : native_call) (msg : string) (st : storage) : storage :=
  let st' := emit (Called c) st in
  if throws st c then emit (Warned msg) st' else st'.

(** [try { call } catch(e) {}] *)
Definition try_call (c : native_call) (st : storage) : storage :=
  emit (Called c) st.

(** [persistSet(k, v)] *)
Definition run_persistSet (k v : string) (st : storage) : storage :=
  match persistSet st with
  | SetNoop => st
  | SetLocalStorage => try_call_warn (LS_setItem k v) "localStorage.setItem falhou" st
  | SetIndexedDB => try_call_warn (IDB_put v k) "idb set falhou" st
  | SetBridgeSetItem name => try_call_warn (Bridge_setItem name k v) "android.setItem falhou" st
  | SetBridgeSet name => try_call (Bridge_set name k v) st
  | SetBridgeWarn => emit (Warned "android bridge sem setItem") st
  end.

(** [persistRemove(k)] *)
Definition run_persistRemove (k : string) (st : storage) : storage :=
  match persistRemove st with
  | RemoveNoop => st
  | RemoveLocalStorage => try_call (LS_removeItem k) st
  | RemoveIndexedDB => try_call (IDB_delete k) st
  | RemoveBridge name true => try_call (Bridge_removeItem name k) st
  | RemoveBridge name false => st
  end.

(** [persistClear()] *)
Definition run_persistClear (st : storage) : storage :=
  match persistClear st with
  | ClearNoop => st
  | ClearLocalStorage => try_call LS_clear st
  | ClearIndexedDB => try_call IDB_clear st
  end.

(** [getItem(key)] *)
Definition getItem (st : storage) (key : string) : completion value :=
  match call_hasOwnProperty (_cache st) key with
  | Throw e => Throw e
  | Normal true => Normal (get_own (_cache st) key)
  | Normal false => Normal VNull
  end.

(** [setItem(key, value)] *)
Definition setItem (key : string) (v : value) (st : storage) : storage :=
  let st1 := set_cache (put (_cache st) key (VStr (String_ v))) st in
  run_persistSet key (String_ v) st1.

(** [removeItem(key)] *)
Definition removeItem (key : string) (st : storage) : storage :=
  let st1 := set_cache (delete_property (_cache st) key) st in
  run_persistRemove key st1.

(** [clear()] *)
Definition clear (st : storage) : storage :=
  let st1 := set_cache empty_object st in
  run_persistClear st1.

(** ** Initialisation *)

(** [await p] inside an [async] function: continue with the value, or settle
    the function's own promise the way [p] settled. *)
Definition await {A B : Type} (p : promise A * storage)
    (k : A -> storage -> promise B * storage) : promise B * storage :=
  match p with
  | (Fulfilled a, st) => k a st
  | (Rejected r, st) => (Rejected r, st)
  | (Pending, st) => (Pending, st)
  end.

Definition testKey : string := "__mig_test__".

(** The loop [for (let i = 0; i < localStorage.length; i++)], with [n]
    iterations left at index [i]. *)
Fixpoint load_localStorage (ls : Storage) (n i : nat) (c : object) : object :=
  match n with
  | O => c
  | S n' =>
    let k := ls_key ls i in
    let v := ls_getItem ls k in
    let c' := match k with
              | Some s => if truthy_string s then put c s v else c
              | None => c
              end in
    load_localStorage ls n' (S i) c'
  end.

(** [tryLocalStorage()] *)
Definition tryLocalStorage (env : environment) (st : storage) : promise bool * storage :=
  let st := emit (Probed SyncStore) st in
  match window_localStorage env with
  | None => (Fulfilled false, st)
  | Some ls =>
    let st := emit (Called (LS_setItem testKey "1")) st in
    match ls_setItem ls testKey "1" with
    | Throw _ => (Fulfilled false, st)
    | Normal ls1 =>
      let st := emit (Called (LS_removeItem testKey)) st in
      let ls2 := ls_removeItem ls1 testKey in
      let st := set_backend "localStorage" st in
      let st := set_cache (load_localStorage ls2 (ls_length ls2) 0 (_cache st)) st in
      let st := set_persistSet SetLocalStorage st in
      let st := set_persistRemove RemoveLocalStorage st in
      let st := set_persistClear ClearLocalStorage st in
      (Fulfilled true, st)
    end
  end.

(** [openIndexedDB()] *)
Definition openIndexedDB (env : environment) : promise IDBDatabase :=
  match window_indexedDB env with
  | NoIndexedDB => Rejected "no-indexeddb"
  | OpenError => Rejected "idb-error"
  | OpenSilent => Pending
  | OpenSuccess db => Fulfilled db
  end.

(** The [onsuccess] handler run once per delivered record:
    [storage._cache[cursor.key] = cursor.value]. *)
Definition load_cursor (recs : list (string * value)) (c : object) : object :=
  fold_left (fun c kv => put c (fst kv) (snd kv)) recs c.

(** [tryIndexedDB()].  The promise built around the cursor request is
    returned, not awaited: when it rejects, the function's promise rejects;
    the [catch] block only sees what is thrown before the [return]. *)
Definition tryIndexedDB (env : environment) (st : storage) : promise bool * storage :=
  let st := emit (Probed AsyncStore) st in
  match openIndexedDB env with
  | Rejected _ => (Fulfilled false, emit (Warned "indexedDB não disponível") st)
  | Pending => (Pending, st)
  | Fulfilled db =>
    let st := set_idb db st in
    let st := set_backend "indexedDB" st in
    if has_kv db then
      let st := set_cache (load_cursor (records db) (_cache st)) st in
      match cursor db with
      | CursorEnd =>
        let st := set_persistSet SetIndexedDB st in
        let st := set_persistRemove RemoveIndexedDB st in
        let st := set_persistClear ClearIndexedDB st in
        (Fulfilled true, st)
      | CursorError => (Rejected "cursor-error", st)
      | CursorSilent => (Pending, st)
      end
    else (Fulfilled false, emit (Warned "indexedDB não disponível") st)
  end.

Definition candidates : list string :=
  ["AndroidStorage"; "Android"; "AndroidBridge"; "android"].

Definition keysToTry : list string :=
  ["migstar_user"; "migstar_missionPool"; "migstar_transactions";
   "migstar_history"; "migstar_todayMissions"].

(** The body of [keysToTry.forEach(k => ...)] *)
Definition load_key (name : string) (get : string -> completion value)
    (st : storage) (k : string) : storage :=
  let st := emit (Called (Bridge_getItem name k)) st in
  match get k with
  | Normal VNull => st
  | Normal VUndefined => st
  | Normal v => set_cache (put (_cache st) k v) st
  | Throw _ => st
  end.

(** The loop [for (const name of candidates)] *)
Fixpoint bridge_loop (env : environment) (names : list string) (st : storage)
    : bool * storage :=
  match names with
  | [] => (false, st)
  | name :: rest =>
    match window_global env name with
    | None => bridge_loop env rest st
    | Some api =>
      let st := set_backend ("android:" +:+ name) st in
      let st :=
        if b_setItem api then set_persistSet (SetBridgeSetItem name) st
        else if b_set api then set_persistSet (SetBridgeSet name) st
        else set_persistSet SetBridgeWarn st in
      match b_getItem api with
      | Some get =>
        let st := set_persistRemove (RemoveBridge name (b_removeItem api)) st in
        let st := fold_left (load_key name get) keysToTry st in
        (true, st)
      | None => bridge_loop env rest st
      end
    end
  end.

(** [tryAndroidBridge()] *)
Definition tryAndroidBridge (env : environment) (st : storage) : promise bool * storage :=
  let st := emit (Probed HostBridge) st in
  let (found, st') := bridge_loop env candidates st in
  (Fulfilled found, st').

(** [document.cookie.split('; ').map(c => c.split('='))], or [[]] when the
    cookie string is empty. *)
Definition parse_cookies (s : string) : list (list string) :=
  if truthy_string s then List.map (fun c => split c "=") (split s "; ") else [].

(** The body of [cookies.forEach(([k,v]) => ...)].  The key expression is
    evaluated before the right-hand side; either may throw, and then nothing
    is assigned. *)
Definition load_cookie (c : object) (entry : list string) : object :=
  match decodeURIComponent_opt (entry !! 0) with
  | Throw _ => c
  | Normal k =>
    match decodeURIComponent_opt (entry !! 1) with
    | Throw _ => c
    | Normal v => put c k (VStr v)
    end
  end.

Definition load_cookies (env : environment) (c : object) : object :=
  match document_cookie env with
  | None => c
  | Some s => fold_left load_cookie (parse_cookies s) c
  end.

(** [init()] *)
Definition init (env : environment) : promise unit * storage :=
  await (tryLocalStorage env (initial env)) (fun ok st =>
  if ok then (Fulfilled tt, st) else
  await (tryIndexedDB env st) (fun ok st =>
  if ok then (Fulfilled tt, st) else
  await (tryAndroidBridge env st) (fun ok st =>
  if ok then (Fulfilled tt, st) else
  let st := emit (Probed Memory) st in
  let st := set_cache (load_cookies env (_cache st)) st in
  let st := set_backend "memory" st in
  let st := emit (Warned "Usando storage fallback em memória. Persistência pode não funcionar no WebView atual.") st in
  (Fulfilled tt, st)))).

(** [storage.ready = init().then(() => ... storage)] *)
Definition ready (env : environment) : promise storage :=
  match init env with
  | (Fulfilled _, st) => Fulfilled st
  | (Rejected r, _) => Rejected r
  | (Pending, _) => Pending
  end.

(** The wrapper's state once [init] has run as far as it gets. *)
Definition after_init (env : environment) : storage := snd (init env).

(** ** Observations on the ghost log *)

Definition probes (l : list event) : list tier :=
  flat_map (fun e => match e with Probed t => [t] | _ => [] end) l.

Definition assignments (l : list event) : list string :=
  flat_map (fun e => match e with Assigned tag => [tag] | _ => [] end) l.

Definition calls (l : list event) : list native_call :=
  flat_map (fun e => match e with Called c => [c] | _ => [] end) l.

Definition bridge_reads (l : list event) : list string :=
  flat_map (fun e => match e with Called (Bridge_getItem _ k) => [k] | _ => [] end) l.

(** ** Calls on the facade *)

Inductive op : Type :=
| SetItem (key : string) (v : value)
| RemoveItem (key : string)
| Clear.

Definition step (st : storage) (o : op) : storage :=
  match o with
  | SetItem k v => setItem k v st
  | RemoveItem k => removeItem k st
  | Clear => clear st
  end.

Definition run (ops : list op) (st : storage) : storage := fold_left step ops st.

(** ** Notions used by the statements *)

(** The cache still finds the built-in [hasOwnProperty]: its prototype is
    [Object.prototype] and no own property shadows the method. *)
Definition intact (o : object) : Prop :=
  proto o = ObjectPrototype /\ own o !! "hasOwnProperty" = None.

(** Keys whose assignment on a plain object is an ordinary property write
    that leaves the method lookup alone. *)
Definition plain_key (k : string) : Prop :=
  k <> "hasOwnProperty" /\ k <> "__proto__".

Definition plain_op (o : op) : Prop :=
  match o with
  | SetItem k _ => plain_key k
  | RemoveItem _ => True
  | Clear => True
  end.

(** What [getItem(k)] is to return after one more facade call, given what it
    returned before ([VNull] when the key is absent). *)
Definition reflect (k : string) (before : value) (o : op) : value :=
  match o with
  | SetItem k' v => if String.eqb k' k then VStr (String_ v) else before
  | RemoveItem k' => if String.eqb k' k then VNull else before
  | Clear => VNull
  end.

(** What a read of the cache yields when the method lookup works. *)
Definition cached (o : object) (k : string) : value :=
  match own o !! k with
  | Some v => v
  | None => VNull
  end.

(** The order in which [init] tries the tiers. *)
Definition priority : list tier := [SyncStore; AsyncStore; HostBridge; Memory].

(** How the probe of one tier settles in [env]; the memory fallback always
    succeeds. *)
Definition probe_result (env : environment) (t : tier) : promise bool :=
  match t with
  | SyncStore => fst (tryLocalStorage env (initial env))
  | AsyncStore => fst (tryIndexedDB env (initial env))
  | HostBridge => fst (tryAndroidBridge env (initial env))
  | Memory => Fulfilled true
  end.

(** What the [forEach] over [keysToTry] does to the cache alone. *)
Definition load_key_cache (get : string -> completion value) (c : object) (k : string) : object :=
  match get k with
  | Normal VNull => c
  | Normal VUndefined => c
  | Normal v => put c k v
  | Throw _ => c
  end.

(** A cookie entry one of whose two decodings throws. *)
Definition decode_throws (x : option string) : bool :=
  match decodeURIComponent_opt x with
  | Throw _ => true
  | Normal _ => false
  end.

Definition undecodable (entry : list string) : bool :=
  decode_throws (entry !! 0) || decode_throws (entry !! 1).

(** ** Concrete environments *)

Definition no_faults : native_call -> bool := fun _ => false.

Definition no_globals : string -> option bridge := fun _ => None.

(** [window[name]] holds [api]; the other bridge names are undefined. *)
Definition only_global (name : string) (api : bridge) : string -> option bridge :=
  fun n => if String.eqb n name then Some api else None.

(** Nothing is available: no [localStorage], no IndexedDB, no bridge, no
    cookie. *)
Definition env_bare : environment :=
  mkEnv None NoIndexedDB no_globals None no_faults.

(** [window.Android = { setItem(k, v) { ... } }]: an injected object that
    can write but has no [getItem]. *)
Definition write_only_bridge : bridge := mkBridge true false None false.

Definition env_write_only_bridge : environment :=
  mkEnv None NoIndexedDB (only_global "Android" write_only_bridge) None no_faults.

(** A bridge that knows ["x"] and ["migstar_user"] and answers [null] for
    everything else. *)
Definition sample_getItem (k : string) : completion value :=
  if String.eqb k "x" then Normal (VStr "9")
  else if String.eqb k "migstar_user" then Normal (VStr "{}")
  else Normal VNull.

Definition reading_bridge : bridge := mkBridge true false (Some sample_getItem) true.

Definition env_bridge : environment :=
  mkEnv None NoIndexedDB (only_global "Android" reading_bridge) None no_faults.

(** No [localStorage]; the database opens and holds one record, but the
    cursor request fails after delivering it; a complete bridge is there. *)
Definition env_cursor_error : environment :=
  mkEnv None (OpenSuccess (mkDB true [("a", VStr "1")] CursorError))
        (only_global "Android" reading_bridge) None no_faults.

(** No [localStorage]; the database opens but has no object store ['kv']. *)
Definition env_no_object_store : environment :=
  mkEnv None (OpenSuccess (mkDB false [] CursorEnd)) no_globals None no_faults.

(** [localStorage] holds a and b; IndexedDB works too. *)
Definition env_sync_ab : environment :=
  mkEnv (Some (mkLS [("a", "1"); ("b", "2")] false))
        (OpenSuccess (mkDB true [("c", VStr "3")] CursorEnd))
        (only_global "Android" reading_bridge) None no_faults.

(** No [localStorage]; IndexedDB holds a and b. *)
Definition env_async_ab : environment :=
  mkEnv None (OpenSuccess (mkDB true [("a", VStr "1"); ("b", VStr "2")] CursorEnd))
        no_globals None no_faults.

(** [localStorage] holds an entry under the empty key. *)
Definition env_sync_empty_key : environment :=
  mkEnv (Some (mkLS [("a", "1"); ("", "z")] false)) NoIndexedDB no_globals None no_faults.

(** Memory fallback with [document.cookie = "a=1; foo; b=2"]. *)
Definition env_cookie : environment :=
  mkEnv None NoIndexedDB no_globals (Some "a=1; foo; b=2") no_faults.

(** ** The application's storage helpers

    The second function of [script.js] reaches the wrapper only through
    [sGet], [sSet] and [sRemove], with the five keys [migstar_...].  The
    JSON text that [JSON.stringify] produces from the application state is
    an argument here. *)

(** [sGet(k)]: [try { return S.getItem(k); } catch(e) { return null; }] *)
Definition sGet (st : storage) (k : string) : value :=
  match getItem st k with
  | Normal v => v
  | Throw _ => VNull
  end.

(** [sSet(k, v)]: [try { S.setItem(k, v); } catch(e) { console.warn(...) }].
    [setItem] does not throw on the values of [value]. *)
Definition sSet (k : string) (v : value) (st : storage) : storage :=
  setItem k v st.

(** [sRemove(k)]: [try { S.removeItem(k); } catch(e) {}] *)
Definition sRemove (k : string) (st : storage) : storage :=
  removeItem k st.

(** [saveUser()], [saveTransactions()], [saveHistory()], [saveMissionPool()]
    and the [sSet] at the end of [assignDailyMissions()]; [json] is the
    result of [JSON.stringify]. *)
Definition saveUser (json : string) (st : storage) : storage :=
  sSet "migstar_user" (VStr json) st.

Definition saveTransactions (json : string) (st : storage) : storage :=
  sSet "migstar_transactions" (VStr json) st.

Definition saveHistory (json : string) (st : storage) : storage :=
  sSet "migstar_history" (VStr json) st.

Definition saveMissionPool (json : string) (st : storage) : storage :=
  sSet "migstar_missionPool" (VStr json) st.

Definition saveTodayMissions (json : string) (st : storage) : storage :=
  sSet "migstar_todayMissions" (VStr json) st.

(** The writers with the key each one owns. *)
Definition savers : list (string * (string -> storage -> storage)) :=
  [("migstar_user", saveUser); ("migstar_missionPool", saveMissionPool);
   ("migstar_transactions", saveTransactions); ("migstar_history", saveHistory);
   ("migstar_todayMissions", saveTodayMissions)].

(** [resetLocalStorage()]: [confirmed] is the answer to [confirm(...)]; the
    second component tells whether [location.reload()] is called. *)
Definition resetLocalStorage (confirmed : bool) (st : storage) : storage * bool :=
  if confirmed then
    let st := sRemove "migstar_user" st in
    let st := sRemove "migstar_missionPool" st in
    let st := sRemove "migstar_transactions" st in
    let st := sRemove "migstar_history" st in
    let st := sRemove "migstar_todayMissions" st in
    (st, true)
  else (st, false).

(** What the application does to the wrapper after [loadState]. *)
Inductive app_write : Type :=
| SaveUser (json : string)
| SaveTransactions (json : string)
| SaveHistory (json : string)
| SaveMissionPool (json : string)
| SaveTodayMissions (json : string)
| Reset (confirmed : bool).

Definition app_step (st : storage) (w : app_write) : storage :=
  match w with
  | SaveUser j => saveUser j st
  | SaveTransactions j => saveTransactions j st
  | SaveHistory j => saveHistory j st
  | SaveMissionPool j => saveMissionPool j st
  | SaveTodayMissions j => saveTodayMissions j st
  | Reset b => fst (resetLocalStorage b st)
  end.

Definition run_app (ws : list app_write) (st : storage) : storage :=
  fold_left app_step ws st.

(** ** Further notions used by the statements *)

(** The native call each facade call is to produce once the wrapper is
    bound to [localStorage], to IndexedDB, or to the bridge [api] found
    under [name]. *)
Definition ls_call (o : op) : native_call :=
  match o with
  | SetItem k v => LS_setItem k (String_ v)
  | RemoveItem k => LS_removeItem k
  | Clear => LS_clear
  end.

Definition idb_call (o : op) : native_call :=
  match o with
  | SetItem k v => IDB_put (String_ v) k
  | RemoveItem k => IDB_delete k
  | Clear => IDB_clear
  end.

Definition bridge_calls (name : string) (api : bridge) (o : op) : list native_call :=
  match o with
  | SetItem k v =>
    if b_setItem api then [Bridge_setItem name k (String_ v)]
    else if b_set api then [Bridge_set name k (String_ v)]
    else []
  | RemoveItem k => if b_removeItem api then [Bridge_removeItem name k] else []
  | Clear => []
  end.

(** The binding [tryAndroidBridge] gives [persistSet] for [api]. *)
Definition bridge_set_binding (name : string) (api : bridge) : set_binding :=
  if b_setItem api then SetBridgeSetItem name
  else if b_set api then SetBridgeSet name
  else SetBridgeWarn.

(** A bridge object that [tryAndroidBridge] can take. *)
Definition usable_bridge (env : environment) (name : string) : Prop :=
  exists api get, window_global env name = Some api /\ b_getItem api = Some get.

(** The native calls of the probes: the test write and delete on
    [localStorage], and reads of well-known keys from a bridge. *)
Definition probe_call (c : native_call) : Prop :=
  c = LS_setItem testKey "1" \/ c = LS_removeItem testKey \/
  exists name k, c = Bridge_getItem name k /\ In name candidates /\ In k keysToTry.

(** The synchronous probe fails: no [localStorage], or one that refuses the
    test write. *)
Definition sync_unavailable (env : environment) : Prop :=
  window_localStorage env = None \/
  exists ls, window_localStorage env = Some ls /\ quota_exceeded ls = true.

(** The asynchronous tier is given up before its promise is built: no
    IndexedDB, an open that fails, or a database without the object store. *)
Definition async_unavailable (env : environment) : Prop :=
  window_indexedDB env = NoIndexedDB \/ window_indexedDB env = OpenError \/
  exists db, window_indexedDB env = OpenSuccess db /\ has_kv db = false.

(** *** Cookie strings *)

(** [s] does not contain the character [a]. *)
Fixpoint avoids (a : ascii) (s : string) : bool :=
  match s with
  | EmptyString => true
  | String b s' => negb (Ascii.eqb b a) && avoids a s'
  end.

(** Names and values without [;], [=] and [%]. *)
Definition simple (s : string) : bool :=
  avoids ";" s && avoids "=" s && avoids "%" s.

Definition simple_pair (p : string * string) : Prop :=
  simple (fst p) = true /\ simple (snd p) = true.

(** [document.cookie] as the browser serialises the visible cookies:
    [name=value] pairs joined by ["; "]. *)
Definition cookie_pair (p : string * string) : string :=
  fst p +:+ "=" +:+ snd p.

Fixpoint cookie_string (ps : list (string * string)) : string :=
  match ps with
  | [] => ""
  | p :: rest =>
    match rest with
    | [] => cookie_pair p
    | _ :: _ => cookie_pair p +:+ "; " +:+ cookie_string rest
    end
  end.

(** *** The store behind the synchronous tier *)

(** What a native call does to [localStorage]: a call that throws changes
    nothing, calls to other backends do not concern it. *)
Definition ls_apply (thr : native_call -> bool) (ls : Storage) (c : native_call) : Storage :=
  if thr c then ls
  else match c with
       | LS_setItem k v =>
         match ls_setItem ls k v with
         | Normal ls' => ls'
         | Throw _ => ls
         end
       | LS_removeItem k => ls_removeItem ls k
       | LS_clear => {| items := []; quota_exceeded := quota_exceeded ls |}
       | _ => ls
       end.

(** [localStorage] after the native calls of a session, in order. *)
Definition ls_replay (thr : native_call -> bool) (ls : Storage)
    (cs : list native_call) : Storage :=
  fold_left (ls_apply thr) cs ls.

(** Facade calls whose effect survives a reload through [localStorage]:
    [setItem] on a key that is not empty (the loader skips it), not the
    probe's test key (the probe deletes it) and not one of the two keys
    that collide with the cache object. *)
Definition durable_op (o : op) : Prop :=
  match o with
  | SetItem k _ => plain_key k /\ k <> "" /\ k <> testKey
  | RemoveItem _ => True
  | Clear => True
  end.

(** The cache holds exactly what the store holds, the empty key apart. *)
Definition mirrors (ls : Storage) (c : object) : Prop :=
  quota_exceeded ls = false /\
  NoDup ((items ls).*1) /\ Forall plain_key ((items ls).*1) /\
  (testKey ∉ (items ls).*1) /\
  intact c /\
  forall k, own c !! k =
            (if String.eqb k "" then None else VStr <$> assoc_get k (items ls)).

(** ** Further concrete environments *)

(** A bridge without [removeItem] and without any writer. *)
Definition read_only_bridge : bridge := mkBridge false false (Some sample_getItem) false.

(** [window.AndroidStorage] cannot read, [window.AndroidBridge] can. *)
Definition env_two_bridges : environment :=
  mkEnv None NoIndexedDB
        (fun n => if String.eqb n "AndroidStorage" then Some write_only_bridge
                  else if String.eqb n "AndroidBridge" then Some reading_bridge
                  else None)
        None no_faults.

(** Memory fallback seeded by two simple cookies. *)
Definition env_two_cookies : environment :=
  mkEnv None NoIndexedDB no_globals (Some (cookie_string [("a", "1"); ("b", "2")])) no_faults.

(** [localStorage] holds a leftover of the probe besides a real entry. *)
Definition env_sync_leftover : environment :=
  mkEnv (Some (mkLS [("__mig_test__", "1"); ("a", "1")] false)) NoIndexedDB no_globals
        None no_faults.

(** Every persistence call throws. *)
Definition all_faults : native_call -> bool := fun _ => true.

(** * Properties *)

(** ** The JavaScript fragment on examples *)

Example split_cookie_string :
  split "a=1; b=2; foo" "; " = ["a=1"; "b=2"; "foo"].
Proof. reflexivity. Qed.

Example split_trailing_separator : split "a=1; " "; " = ["a=1"; ""].
Proof. reflexivity. Qed.

Example split_value_with_equals : split "t=YQ==" "=" = ["t"; "YQ"; ""; ""].
Proof. reflexivity. Qed.

Example decode_ascii_escape : decodeURIComponent "a%20b%3D" = Normal "a b=".
Proof. reflexivity. Qed.

Example decode_two_octets :
  decodeURIComponent "%C3%A9" =
  Normal (String (ascii_of_N 195) (String (ascii_of_N 169) EmptyString)).
Proof. reflexivity. Qed.

Example decode_lone_percent : decodeURIComponent "100%" = Throw URIError.
Proof. reflexivity. Qed.

Example decode_truncated_sequence : decodeURIComponent "%E0%A4%A" = Throw URIError.
Proof. reflexivity. Qed.

Example decode_overlong : decodeURIComponent "%C0%80" = Throw URIError.
Proof. reflexivity. Qed.

Example decode_surrogate : decodeURIComponent "%ED%A0%80" = Throw URIError.
Proof. reflexivity. Qed.

Example decode_undefined : decodeURIComponent_opt None = Normal "undefined".
Proof. reflexivity. Qed.

(** Assignments to a fresh [{}] under the two special names. *)
Example put_proto_string :
  put empty_object "__proto__" (VStr "x") = empty_object.
Proof. reflexivity. Qed.

Example put_proto_null :
  proto (put empty_object "__proto__" VNull) = NullPrototype.
Proof. reflexivity. Qed.

Example call_shadowed :
  call_hasOwnProperty (put empty_object "hasOwnProperty" (VStr "x")) "a" = Throw TypeError.
Proof. reflexivity. Qed.

(** ** The cache object *)

Section ObjectFacts.

Implicit Types (o : object) (k : string) (v : value).

Lemma intact_empty : intact empty_object.
Proof. split; reflexivity. Qed.

(** Assigning a key other than [__proto__] always ends in an own property. *)
Lemma put_own k v o :
  k <> "__proto__" ->
  put o k v = {| own := <[k := v]> (own o); proto := proto o |}.
Proof.
  intros Hk. unfold put.
  destruct (own o !! k); [reflexivity|].
  destruct (proto o); [|reflexivity].
  destruct (String.eqb_spec k "__proto__"); [contradiction|reflexivity].
Qed.

Lemma put_plain_lookup k k' v o :
  k <> "__proto__" ->
  own (put o k v) !! k' = if decide (k = k') then Some v else own o !! k'.
Proof.
  intros Hk. rewrite put_own by assumption. simpl. apply lookup_insert.
Qed.

Lemma put_plain_intact k v o : plain_key k -> intact o -> intact (put o k v).
Proof.
  intros [Hh Hp] [Ho Hm]. rewrite put_own by assumption.
  split; simpl; [assumption|].
  rewrite lookup_insert_ne by assumption. assumption.
Qed.

Lemma delete_intact k o : intact o -> intact (delete_property o k).
Proof.
  intros [Ho Hm]. split; simpl; [assumption|].
  rewrite lookup_delete. destruct (decide (k = "hasOwnProperty")); [reflexivity|assumption].
Qed.

(** After [o.hasOwnProperty = v] the method is shadowed whatever [o] was. *)
Lemma put_shadows v o : own (put o "hasOwnProperty" v) !! "hasOwnProperty" = Some v.
Proof.
  rewrite put_plain_lookup by discriminate.
  destruct (decide ("hasOwnProperty" = "hasOwnProperty")); [reflexivity|contradiction].
Qed.

Lemma call_intact o k : intact o -> call_hasOwnProperty o k = Normal (has_own o k).
Proof. intros [Ho Hm]. unfold call_hasOwnProperty. rewrite Hm, Ho. reflexivity. Qed.

End ObjectFacts.

(** ** The facade *)

Section FacadeFacts.

Implicit Types (st : storage) (k : string) (v : value).

Lemma cache_run_persistSet k s st : _cache (run_persistSet k s st) = _cache st.
Proof.
  unfold run_persistSet, try_call_warn, try_call.
  destruct (persistSet st); simpl; try reflexivity;
    match goal with |- context [if ?b then _ else _] => destruct b end; reflexivity.
Qed.

Lemma cache_run_persistRemove k st : _cache (run_persistRemove k st) = _cache st.
Proof.
  unfold run_persistRemove, try_call.
  destruct (persistRemove st) as [| | |n []]; reflexivity.
Qed.

Lemma cache_run_persistClear st : _cache (run_persistClear st) = _cache st.
Proof. unfold run_persistClear, try_call. destruct (persistClear st); reflexivity. Qed.

Lemma cache_setItem k v st :
  _cache (setItem k v st) = put (_cache st) k (VStr (String_ v)).
Proof. unfold setItem. rewrite cache_run_persistSet. reflexivity. Qed.

Lemma cache_removeItem k st :
  _cache (removeItem k st) = delete_property (_cache st) k.
Proof. unfold removeItem. rewrite cache_run_persistRemove. reflexivity. Qed.

Lemma cache_clear st : _cache (clear st) = empty_object.
Proof. unfold clear. rewrite cache_run_persistClear. reflexivity. Qed.

(** With the method lookup intact, [getItem] is a read of the own
    properties, [null] standing for an absent key. *)
Lemma getItem_intact st k :
  intact (_cache st) -> getItem st k = Normal (cached (_cache st) k).
Proof.
  intros Hi. unfold getItem, cached, get_own. rewrite call_intact by assumption.
  unfold has_own. destruct (own (_cache st) !! k); reflexivity.
Qed.

(** Once the method is shadowed every read throws. *)
Lemma getItem_shadowed st k x :
  own (_cache st) !! "hasOwnProperty" = Some x -> getItem st k = Throw TypeError.
Proof. intros H. unfold getItem, call_hasOwnProperty. rewrite H. reflexivity. Qed.

Lemma step_intact st o :
  plain_op o -> intact (_cache st) -> intact (_cache (step st o)).
Proof.
  intros Ho Hi. destruct o as [k v|k|]; simpl.
  - rewrite cache_setItem. apply put_plain_intact; assumption.
  - rewrite cache_removeItem. apply delete_intact; assumption.
  - rewrite cache_clear. apply intact_empty.
Qed.

Lemma step_cached st o k :
  plain_op o -> cached (_cache (step st o)) k = reflect k (cached (_cache st) k) o.
Proof.
  intros Ho. destruct o as [k' v|k'|]; simpl; unfold cached.
  - destruct Ho as [_ Hp]. rewrite cache_setItem, put_plain_lookup by assumption.
    destruct (decide (k' = k)) as [->|Hne].
    + rewrite String.eqb_refl. reflexivity.
    + apply String.eqb_neq in Hne. rewrite Hne. reflexivity.
  - rewrite cache_removeItem. simpl. rewrite lookup_delete.
    destruct (decide (k' = k)) as [->|Hne].
    + rewrite String.eqb_refl. reflexivity.
    + apply String.eqb_neq in Hne. rewrite Hne. reflexivity.
  - rewrite cache_clear. reflexivity.
Qed.

(** The cache-first invariant on keys that do not collide with the object
    machinery: after any sequence of calls, [getItem] returns what the last
    call on that key left. *)
Lemma cache_first_plain_keys ops st k :
  Forall plain_op ops -> intact (_cache st) ->
  intact (_cache (run ops st)) /\
  getItem (run ops st) k = Normal (fold_left (reflect k) ops (cached (_cache st) k)).
Proof.
  intros Hops. revert st. unfold run.
  induction Hops as [|o ops Ho Hops IH]; intros st Hi; simpl.
  - split; [assumption|]. apply getItem_intact. assumption.
  - destruct (IH (step st o) (step_intact st o Ho Hi)) as [Hi' Hg].
    split; [assumption|]. rewrite Hg.
    rewrite step_cached by assumption. reflexivity.
Qed.

(** Round trip on such keys. *)
Lemma roundtrip_plain_keys st k s :
  plain_key k -> intact (_cache st) ->
  getItem (setItem k (VStr s) st) k = Normal (VStr s).
Proof.
  intros Hk Hi.
  destruct (cache_first_plain_keys [SetItem k (VStr s)] st k) as [_ H].
  - constructor; [exact Hk|constructor].
  - assumption.
  - simpl in H. rewrite String.eqb_refl in H. exact H.
Qed.

(** A key that is not an own property reads as [null], also when
    [Object.prototype] has a property of that name. *)
Lemma getItem_absent st k :
  intact (_cache st) -> own (_cache st) !! k = None -> getItem st k = Normal VNull.
Proof. intros Hi Hk. rewrite getItem_intact by assumption. unfold cached. rewrite Hk. reflexivity. Qed.

Lemma getItem_fresh env k : getItem (initial env) k = Normal VNull.
Proof. apply getItem_absent; [apply intact_empty|apply lookup_empty]. Qed.

(** A stored empty string is returned as such. *)
Lemma getItem_empty_string st k :
  intact (_cache st) -> own (_cache st) !! k = Some (VStr "") -> getItem st k = Normal (VStr "").
Proof. intros Hi Hk. rewrite getItem_intact by assumption. unfold cached. rewrite Hk. reflexivity. Qed.

(** The facade never assigns [storage.backend]. *)
Lemma backend_step st o : backend (step st o) = backend st.
Proof.
  destruct o as [k v|k|]; simpl.
  - unfold setItem, run_persistSet, try_call_warn, try_call.
    destruct (persistSet _); simpl; try reflexivity;
      match goal with |- context [if ?b then _ else _] => destruct b end; reflexivity.
  - unfold removeItem, run_persistRemove, try_call.
    destruct (persistRemove _) as [| | |n []]; reflexivity.
  - unfold clear, run_persistClear, try_call. destruct (persistClear _); reflexivity.
Qed.

Lemma backend_run ops st : backend (run ops st) = backend st.
Proof.
  revert st. unfold run. induction ops as [|o ops IH]; intros st; simpl; [reflexivity|].
  rewrite IH. apply backend_step.
Qed.

End FacadeFacts.

(** ** Keys that collide with the object machinery *)

(** C1. The cache-first invariant says that after any sequence of calls
    [getItem(k)] returns what the last call on [k] left.  It fails on the
    code: after [setItem("hasOwnProperty", v)], from any state and for any
    [v], every [getItem(k)] throws a [TypeError] (the stored string shadows
    the method that [getItem] calls on the cache), and
    [setItem("__proto__", "x")] on a fresh wrapper stores nothing, so that
    [getItem("__proto__")] still returns [null]. *)
Theorem cache_first_fails_on_colliding_keys (env : environment) (st : storage)
    (v : value) (k : string) :
  getItem (run [SetItem "hasOwnProperty" v] st) k = Throw TypeError /\
  getItem (run [SetItem "__proto__" (VStr "x")] (initial env)) "__proto__" = Normal VNull.
Proof.
  split.
  - apply getItem_shadowed with (x := VStr (String_ v)).
    unfold run. simpl. rewrite cache_setItem. apply put_shadows.
  - reflexivity.
Qed.

(** C4. Round trip: [setItem(k, v)] followed by [getItem(k)] is to return
    [v].  On a fresh wrapper, with the non-empty key ["hasOwnProperty"] the
    read throws a [TypeError], and with the non-empty key ["__proto__"] it
    returns [null], whatever the string [s] written. *)
Theorem roundtrip_fails_on_colliding_keys (env : environment) (s : string) :
  getItem (setItem "hasOwnProperty" (VStr s) (initial env)) "hasOwnProperty"
    = Throw TypeError /\
  getItem (setItem "__proto__" (VStr s) (initial env)) "__proto__" = Normal VNull.
Proof.
  split.
  - apply getItem_shadowed with (x := VStr s).
    rewrite cache_setItem. apply put_shadows.
  - reflexivity.
Qed.

(** C10. [getItem] tests membership with [this._cache.hasOwnProperty(key)],
    a method looked up on the cache itself.  After
    [setItem("hasOwnProperty", "")] the key ["hasOwnProperty"] is stored
    with the empty string, and [getItem("hasOwnProperty")] throws instead
    of returning [""]; the key ["toString"] was never written, and
    [getItem("toString")] throws instead of returning [null]. *)
Theorem own_property_check_fails_when_shadowed (env : environment) :
  let st := setItem "hasOwnProperty" (VStr "") (initial env) in
  own (_cache st) !! "hasOwnProperty" = Some (VStr "") /\
  getItem st "hasOwnProperty" = Throw TypeError /\
  own (_cache st) !! "toString" = None /\
  getItem st "toString" = Throw TypeError.
Proof.
  intros st.
  assert (Hs : own (_cache st) !! "hasOwnProperty" = Some (VStr "")).
  { unfold st. rewrite cache_setItem. apply put_shadows. }
  split; [|split; [|split]].
  - exact Hs.
  - apply getItem_shadowed with (x := VStr ""). exact Hs.
  - unfold st. rewrite cache_setItem, put_plain_lookup by discriminate.
    destruct (decide ("hasOwnProperty" = "toString")); [discriminate|apply lookup_empty].
  - apply getItem_shadowed with (x := VStr ""). exact Hs.
Qed.

(** ** The ghost log *)

Section LogFacts.

Lemma probes_app l1 l2 : probes (l1 ++ l2) = probes l1 ++ probes l2.
Proof. apply flat_map_app. Qed.

Lemma assignments_app l1 l2 : assignments (l1 ++ l2) = assignments l1 ++ assignments l2.
Proof. apply flat_map_app. Qed.

Lemma calls_app l1 l2 : calls (l1 ++ l2) = calls l1 ++ calls l2.
Proof. apply flat_map_app. Qed.

Lemma bridge_reads_app l1 l2 : bridge_reads (l1 ++ l2) = bridge_reads l1 ++ bridge_reads l2.
Proof. apply flat_map_app. Qed.

End LogFacts.

Create Rewrite HintDb log_obs.
#[local] Hint Rewrite probes_app assignments_app calls_app bridge_reads_app : log_obs.

Arguments bridge_loop : simpl never.
Arguments load_localStorage : simpl never.
Arguments load_cursor : simpl never.
Arguments load_cookies : simpl never.

(** ** The bridge probe *)

Section BridgeFacts.

Variable env : environment.

(** The [forEach] over the well-known keys: one read per key, in order, and
    on the cache the effect of [load_key_cache]. *)
Lemma load_keys_spec name get ks st :
  let st' := fold_left (load_key name get) ks st in
  _cache st' = fold_left (load_key_cache get) ks (_cache st) /\
  backend st' = backend st /\
  persistSet st' = persistSet st /\
  probes (log st') = probes (log st) /\
  assignments (log st') = assignments (log st) /\
  bridge_reads (log st') = bridge_reads (log st) ++ ks.
Proof.
  revert st. induction ks as [|k ks IH]; intros st; simpl.
  - rewrite app_nil_r. repeat split.
  - destruct (IH (load_key name get st k)) as (Hc & Hb & Hs & Hp & Ha & Hr).
    rewrite Hc, Hb, Hs, Hp, Ha, Hr. clear.
    unfold load_key, load_key_cache.
    destruct (get k) as [[| |b|s]|e]; simpl;
      autorewrite with log_obs; simpl;
      rewrite ?app_nil_r, <- ?app_assoc; repeat split.
Qed.

Lemma bridge_loop_cons name rest st :
  bridge_loop env (name :: rest) st =
  match window_global env name with
  | None => bridge_loop env rest st
  | Some api =>
    let st1 := set_backend ("android:" +:+ name) st in
    let st2 :=
      if b_setItem api then set_persistSet (SetBridgeSetItem name) st1
      else if b_set api then set_persistSet (SetBridgeSet name) st1
      else set_persistSet SetBridgeWarn st1 in
    match b_getItem api with
    | Some get =>
      (true, fold_left (load_key name get) keysToTry
               (set_persistRemove (RemoveBridge name (b_removeItem api)) st2))
    | None => bridge_loop env rest st2
    end
  end.
Proof. reflexivity. Qed.

(** What the loop over the candidate names leaves behind. *)
Lemma bridge_loop_spec names st found st' :
  bridge_loop env names st = (found, st') ->
  probes (log st') = probes (log st) /\
  (found = false ->
     _cache st' = _cache st /\ bridge_reads (log st') = bridge_reads (log st)) /\
  (found = true ->
     exists name api get,
       In name names /\ window_global env name = Some api /\
       b_getItem api = Some get /\
       backend st' = "android:" +:+ name /\
       _cache st' = fold_left (load_key_cache get) keysToTry (_cache st) /\
       bridge_reads (log st') = bridge_reads (log st) ++ keysToTry).
Proof.
  revert st found st'. induction names as [|name rest IH]; intros st found st' H.
  - injection H as <- <-. split; [reflexivity|]. split; [intros _; split; reflexivity|discriminate].
  - rewrite bridge_loop_cons in H.
    destruct (window_global env name) as [api|] eqn:Hw.
    + cbv zeta in H. destruct (b_getItem api) as [get|] eqn:Hg.
      * apply pair_equal_spec in H. destruct H as [<- <-].
        match goal with |- context [fold_left (load_key name get) keysToTry ?s] =>
          destruct (load_keys_spec name get keysToTry s) as (Hc & Hb & _ & Hp & _ & Hr) end.
        split; [|split; [discriminate|intros _]].
        -- rewrite Hp. destruct (b_setItem api), (b_set api); simpl;
             autorewrite with log_obs; simpl; apply app_nil_r.
        -- exists name, api, get. split; [left; reflexivity|].
           split; [assumption|]. split; [assumption|].
           split; [rewrite Hb; destruct (b_setItem api), (b_set api); reflexivity|].
           split; [rewrite Hc; destruct (b_setItem api), (b_set api); reflexivity|].
           rewrite Hr. destruct (b_setItem api), (b_set api); simpl;
             autorewrite with log_obs; simpl; rewrite app_nil_r; reflexivity.
      * apply IH in H. destruct H as (Hp & Hf & Ht).
        assert (Hpre : forall st0 : storage,
                  st0 = (if b_setItem api
                         then set_persistSet (SetBridgeSetItem name) (set_backend ("android:" +:+ name) st)
                         else if b_set api
                              then set_persistSet (SetBridgeSet name) (set_backend ("android:" +:+ name) st)
                              else set_persistSet SetBridgeWarn (set_backend ("android:" +:+ name) st)) ->
                  probes (log st0) = probes (log st) /\ _cache st0 = _cache st /\
                  bridge_reads (log st0) = bridge_reads (log st)).
        { intros st0 ->. destruct (b_setItem api), (b_set api); simpl;
            autorewrite with log_obs; simpl; rewrite !app_nil_r; repeat split. }
        destruct (Hpre _ eq_refl) as (Hp0 & Hc0 & Hr0).
        split; [rewrite Hp; exact Hp0|]. split.
        -- intros Hfalse. destruct (Hf Hfalse) as [Hc Hr]. split; congruence.
        -- intros Htrue. destruct (Ht Htrue) as (n & a & g & Hin & Hwn & Hgn & Hb & Hc & Hr).
           exists n, a, g. split; [right; assumption|].
           split; [assumption|]. split; [assumption|]. split; [assumption|].
           split; congruence.
    + apply IH in H. destruct H as (Hp & Hf & Ht).
      split; [assumption|]. split; [assumption|].
      intros Htrue. destruct (Ht Htrue) as (n & a & g & Hin & Hrest).
      exists n, a, g. split; [right; assumption|assumption].
Qed.

(** Whether the loop finds a bridge does not depend on the wrapper's state. *)
Lemma bridge_loop_found names st1 st2 :
  fst (bridge_loop env names st1) = fst (bridge_loop env names st2).
Proof.
  revert st1 st2. induction names as [|name rest IH]; intros st1 st2; [reflexivity|].
  rewrite !bridge_loop_cons.
  destruct (window_global env name) as [api|]; [|apply IH].
  cbv zeta. destruct (b_getItem api); [reflexivity|apply IH].
Qed.

End BridgeFacts.

(** ** The bulk loaders *)

Section LoaderFacts.

Implicit Types (c : object) (k : string) (v : value).

(** The probe's write and delete of the test key leave the other entries
    in place and drop an entry stored under the test key itself. *)
Lemma assoc_remove_set t s (l : list (string * string)) :
  assoc_remove t (assoc_set t s l) = assoc_remove t l.
Proof.
  unfold assoc_remove. induction l as [|[k' s'] r IH]; simpl.
  - rewrite String.eqb_refl. reflexivity.
  - destruct (String.eqb_spec t k') as [->|Hne]; simpl.
    + rewrite String.eqb_refl. reflexivity.
    + apply String.eqb_neq in Hne. rewrite Hne. simpl. rewrite IH. reflexivity.
Qed.

Lemma elem_of_assoc_remove t k s (l : list (string * string)) :
  (k, s) ∈ assoc_remove t l <-> (k, s) ∈ l /\ k <> t.
Proof.
  unfold assoc_remove. rewrite !list_elem_of_In, filter_In. simpl.
  rewrite negb_true_iff, String.eqb_neq. split; intros [H1 H2]; split; auto.
Qed.

Lemma assoc_remove_keys t (l : list (string * string)) :
  (assoc_remove t l).*1 = List.filter (fun k => negb (String.eqb t k)) (l.*1).
Proof.
  unfold assoc_remove. induction l as [|[k s] r IH]; simpl; [reflexivity|].
  destruct (String.eqb t k); simpl; [|f_equal]; exact IH.
Qed.

Lemma NoDup_List_filter {A} (f : A -> bool) (l : list A) :
  NoDup l -> NoDup (List.filter f l).
Proof.
  induction 1 as [|x l Hx Hl IH]; simpl; [constructor|].
  destruct (f x); [|assumption]. constructor; [|assumption].
  rewrite list_elem_of_In, filter_In, <- list_elem_of_In. tauto.
Qed.

Lemma Forall_List_filter {A} (P : A -> Prop) (f : A -> bool) (l : list A) :
  Forall P l -> Forall P (List.filter f l).
Proof.
  induction 1 as [|x l Hx Hl IH]; simpl; [constructor|].
  destruct (f x); [constructor|]; assumption.
Qed.

(** In a store with unique keys, [getItem] of the key at an index is the
    value at that index. *)
Lemma assoc_get_lookup (l : list (string * string)) i k s :
  NoDup (l.*1) -> l !! i = Some (k, s) -> assoc_get k l = Some s.
Proof.
  revert i. induction l as [|[k' s'] r IH]; intros i Hnd Hi; [discriminate|].
  simpl in Hnd. apply NoDup_cons in Hnd as [Hk' Hr].
  destruct i as [|i]; simpl in *.
  - injection Hi as -> ->. rewrite String.eqb_refl. reflexivity.
  - destruct (String.eqb_spec k k') as [->|Hne]; [|eapply IH; eassumption].
    exfalso. apply Hk'. apply list_elem_of_fmap. exists (k', s).
    split; [reflexivity|]. eapply list_elem_of_lookup_2. eassumption.
Qed.

(** The [localStorage] loop from index [i] on: every entry at a later index
    with a non-empty key is in the cache, and keys that do not occur there
    are left alone. *)
Lemma load_localStorage_spec ls :
  NoDup ((items ls).*1) -> Forall plain_key ((items ls).*1) ->
  forall n i c,
    i + n = length (items ls) -> intact c ->
    intact (load_localStorage ls n i c) /\
    (forall j k s, i <= j -> items ls !! j = Some (k, s) -> k <> "" ->
       own (load_localStorage ls n i c) !! k = Some (VStr s)) /\
    (forall k, (forall j s, i <= j -> items ls !! j <> Some (k, s)) ->
       own (load_localStorage ls n i c) !! k = own c !! k).
Proof.
  intros Hnd Hplain. induction n as [|n IH]; intros i c Hlen Hc.
  - unfold load_localStorage. split; [assumption|]. split; [|reflexivity].
    intros j k s Hij Hj _. apply lookup_lt_Some in Hj. lia.
  - destruct (lookup_lt_is_Some_2 (items ls) i) as [[ki si] Hi]; [lia|].
    assert (Hpk : plain_key ki).
    { eapply Forall_forall; [exact Hplain|].
      apply list_elem_of_fmap. exists (ki, si).
      split; [reflexivity|]. eapply list_elem_of_lookup_2. exact Hi. }
    assert (Hstep : load_localStorage ls (S n) i c =
                    load_localStorage ls n (S i)
                      (if truthy_string ki then put c ki (VStr si) else c)).
    { unfold load_localStorage at 1; fold load_localStorage.
      unfold ls_key, ls_getItem. rewrite Hi.
      rewrite (assoc_get_lookup _ i ki si Hnd Hi). reflexivity. }
    rewrite Hstep. set (c' := if truthy_string ki then _ else _).
    assert (Hc' : intact c').
    { unfold c'. destruct (truthy_string ki); [apply put_plain_intact|]; assumption. }
    destruct (IH (S i) c' ltac:(lia) Hc') as (Hint & Hin & Hout).
    assert (Hlater : forall j s, S i <= j -> items ls !! j <> Some (ki, s)).
    { intros j s Hj Hjs.
      assert (i = j); [|lia].
      eapply NoDup_lookup; [exact Hnd| |];
        rewrite list_lookup_fmap; [rewrite Hi|rewrite Hjs]; reflexivity. }
    split; [assumption|]. split.
    + intros j k s Hij Hj Hk.
      destruct (decide (j = i)) as [->|Hne].
      * rewrite Hi in Hj. injection Hj as <- <-.
        rewrite (Hout ki Hlater). unfold c'.
        destruct ki; [contradiction|]. simpl.
        destruct Hpk as [_ Hp]. rewrite put_plain_lookup by assumption.
        destruct (decide _); [reflexivity|contradiction].
      * apply (Hin j k s); [lia|assumption|assumption].
    + intros k Hk. rewrite Hout by (intros j s Hj; apply Hk; lia).
      assert (ki <> k) by (intros ->; apply (Hk i si); [lia|assumption]).
      unfold c'. destruct (truthy_string ki); [|reflexivity].
      destruct Hpk as [_ Hp]. rewrite put_plain_lookup by assumption.
      destruct (decide _); [contradiction|reflexivity].
Qed.

(** The cursor loop: every delivered record is in the cache. *)
Lemma load_cursor_spec (recs : list (string * value)) :
  forall c,
    NoDup (recs.*1) -> Forall plain_key (recs.*1) -> intact c ->
    intact (load_cursor recs c) /\
    (forall k v, (k, v) ∈ recs -> own (load_cursor recs c) !! k = Some v) /\
    (forall k, k ∉ recs.*1 -> own (load_cursor recs c) !! k = own c !! k).
Proof.
  unfold load_cursor. induction recs as [|[k0 v0] r IH]; intros c Hnd Hpl Hc; simpl.
  - split; [assumption|]. split; [|reflexivity]. intros k v H. inversion H.
  - simpl in Hnd, Hpl. apply NoDup_cons in Hnd as [Hk0 Hr].
    apply Forall_cons in Hpl as [Hp0 Hpr].
    destruct (IH (put c k0 v0) Hr Hpr (put_plain_intact _ _ _ Hp0 Hc)) as (Hint & Hin & Hout).
    split; [assumption|]. split.
    + intros k v Hkv. apply elem_of_cons in Hkv as [Heq|Hkv]; [|apply Hin; assumption].
      injection Heq as -> ->. rewrite (Hout k0 Hk0).
      destruct Hp0 as [_ Hp]. rewrite put_plain_lookup by assumption.
      destruct (decide _); [reflexivity|contradiction].
    + intros k Hk. apply not_elem_of_cons in Hk as [Hne Hk].
      rewrite (Hout k Hk). destruct Hp0 as [_ Hp].
      rewrite put_plain_lookup by assumption.
      destruct (decide _); [congruence|reflexivity].
Qed.

(** The reads of the well-known keys from a bridge. *)
Lemma load_key_cache_spec (get : string -> completion value) (ks : list string) :
  Forall plain_key ks ->
  forall c,
    intact c ->
    intact (fold_left (load_key_cache get) ks c) /\
    (forall k, k ∉ ks -> own (fold_left (load_key_cache get) ks c) !! k = own c !! k) /\
    (forall k v, k ∈ ks -> get k = Normal v -> v <> VNull -> v <> VUndefined ->
       own (fold_left (load_key_cache get) ks c) !! k = Some v).
Proof.
  induction 1 as [|k0 ks Hp0 Hpl IH]; intros c Hc; simpl.
  - split; [assumption|]. split; [reflexivity|]. intros k v H. inversion H.
  - assert (Hc1 : intact (load_key_cache get c k0)).
    { unfold load_key_cache. destruct (get k0) as [[| |b|s]|e];
        try assumption; apply put_plain_intact; assumption. }
    assert (Hother : forall k, k <> k0 ->
              own (load_key_cache get c k0) !! k = own c !! k).
    { intros k Hne. unfold load_key_cache. destruct Hp0 as [_ Hp].
      destruct (get k0) as [[| |b|s]|e]; try reflexivity;
        (rewrite put_plain_lookup by assumption;
         destruct (decide _); [congruence|reflexivity]). }
    destruct (IH _ Hc1) as (Hint & Hout & Hin).
    split; [assumption|]. split.
    + intros k Hk. apply not_elem_of_cons in Hk as [Hne Hk].
      rewrite (Hout k Hk). apply Hother. assumption.
    + intros k v Hk Hg Hn Hu.
      destruct (decide (k ∈ ks)) as [Hks|Hks]; [apply Hin; assumption|].
      apply elem_of_cons in Hk as [->|Hk]; [|contradiction].
      rewrite (Hout k0 Hks). unfold load_key_cache. rewrite Hg.
      destruct Hp0 as [_ Hp].
      destruct v as [| |b|s]; try contradiction;
        (rewrite put_plain_lookup by assumption;
         destruct (decide _); [reflexivity|contradiction]).
Qed.

Lemma keysToTry_plain : Forall plain_key keysToTry.
Proof. repeat constructor; discriminate. Qed.

End LoaderFacts.

(** ** The runs of [init] *)

Arguments tryAndroidBridge : simpl never.

Section InitFacts.

Lemma tryAndroidBridge_spec env st :
  exists found st',
    tryAndroidBridge env st = (Fulfilled found, st') /\
    probe_result env HostBridge = Fulfilled found /\
    probes (log st') = probes (log st) ++ [HostBridge] /\
    (found = false -> _cache st' = _cache st) /\
    (found = true ->
       exists name api get,
         In name candidates /\ window_global env name = Some api /\
         b_getItem api = Some get /\
         backend st' = "android:" +:+ name /\
         _cache st' = fold_left (load_key_cache get) keysToTry (_cache st) /\
         bridge_reads (log st') = bridge_reads (log st) ++ keysToTry).
Proof.
  unfold probe_result, tryAndroidBridge.
  pose proof (bridge_loop_found env candidates (emit (Probed HostBridge) st)
                (emit (Probed HostBridge) (initial env))) as Hsame.
  destruct (bridge_loop env candidates (emit (Probed HostBridge) st))
    as [found st'] eqn:E.
  destruct (bridge_loop env candidates (emit (Probed HostBridge) (initial env)))
    as [found0 st0].
  simpl in Hsame. subst found0.
  exists found, st'. split; [reflexivity|]. split; [reflexivity|].
  apply bridge_loop_spec in E. destruct E as (Hp & Hf & Ht).
  split; [rewrite Hp; simpl; autorewrite with log_obs; reflexivity|].
  split.
  - intros Hfound. destruct (Hf Hfound) as [Hc _]. exact Hc.
  - intros Hfound. destruct (Ht Hfound) as (name & api & get & H1 & H2 & H3 & H4 & H5 & H6).
    exists name, api, get. repeat (split; [assumption|]).
    rewrite H6. simpl. autorewrite with log_obs. simpl. rewrite app_nil_r. reflexivity.
Qed.

(** Every run of [init] is of one of five kinds: the synchronous store is
    taken; the asynchronous store is taken; the asynchronous store leaves
    the promise rejected or pending; a bridge is taken; the memory fallback
    is reached.  Each kind comes with what the later proofs need to know
    about the final state. *)
Lemma init_cases env :
  (exists ls ls1 st,
     init env = (Fulfilled tt, st) /\
     probe_result env SyncStore = Fulfilled true /\
     window_localStorage env = Some ls /\
     ls_setItem ls testKey "1" = Normal ls1 /\
     backend st = "localStorage" /\
     _cache st = load_localStorage (ls_removeItem ls1 testKey)
                   (ls_length (ls_removeItem ls1 testKey)) 0 empty_object /\
     probes (log st) = [SyncStore])
  \/
  (exists db st,
     init env = (Fulfilled tt, st) /\
     probe_result env SyncStore = Fulfilled false /\
     probe_result env AsyncStore = Fulfilled true /\
     window_indexedDB env = OpenSuccess db /\
     backend st = "indexedDB" /\
     _cache st = load_cursor (records db) empty_object /\
     probes (log st) = [SyncStore; AsyncStore])
  \/
  (exists p st,
     init env = (p, st) /\
     (p = Pending \/ exists r, p = Rejected r) /\
     probe_result env SyncStore = Fulfilled false /\
     (probe_result env AsyncStore = Pending \/
      exists r, probe_result env AsyncStore = Rejected r) /\
     probes (log st) = [SyncStore; AsyncStore])
  \/
  (exists name api get st,
     init env = (Fulfilled tt, st) /\
     probe_result env SyncStore = Fulfilled false /\
     probe_result env AsyncStore = Fulfilled false /\
     probe_result env HostBridge = Fulfilled true /\
     In name candidates /\ window_global env name = Some api /\
     b_getItem api = Some get /\
     backend st = "android:" +:+ name /\
     _cache st = fold_left (load_key_cache get) keysToTry empty_object /\
     bridge_reads (log st) = keysToTry /\
     probes (log st) = [SyncStore; AsyncStore; HostBridge])
  \/
  (exists st,
     init env = (Fulfilled tt, st) /\
     probe_result env SyncStore = Fulfilled false /\
     probe_result env AsyncStore = Fulfilled false /\
     probe_result env HostBridge = Fulfilled false /\
     backend st = "memory" /\
     _cache st = load_cookies env empty_object /\
     probes (log st) = priority).
Proof.
  destruct env as [wls idb glob cookie thr].
  assert (Hsync : forall its, wls = Some (mkLS its false) ->
            exists ls ls1 st,
              init (mkEnv wls idb glob cookie thr) = (Fulfilled tt, st) /\
              probe_result (mkEnv wls idb glob cookie thr) SyncStore = Fulfilled true /\
              wls = Some ls /\ ls_setItem ls testKey "1" = Normal ls1 /\
              backend st = "localStorage" /\
              _cache st = load_localStorage (ls_removeItem ls1 testKey)
                            (ls_length (ls_removeItem ls1 testKey)) 0 empty_object /\
              probes (log st) = [SyncStore]).
  { intros its ->. eexists _, _, _.
    unfold init, probe_result, tryLocalStorage, await; simpl.
    repeat (split; [reflexivity|]). reflexivity. }
  destruct wls as [[its [|]]|]; [|left; eapply Hsync; reflexivity|]; clear Hsync; right;
    (destruct idb as [| | |[[|] recs [| |]]];
     [ | | right; left | left | right; left | right; left | | | ]);
    unfold init, probe_result, tryLocalStorage, tryIndexedDB, await, openIndexedDB; simpl;
    try (eexists _, _; repeat (split; [reflexivity|]);
         first [ reflexivity
               | split; [right; eexists; reflexivity|];
                 split; [reflexivity|]; split; [right; eexists; reflexivity|reflexivity]
               | split; [left; reflexivity|];
                 split; [reflexivity|]; split; [left; reflexivity|reflexivity] ]);
    right; right;
    match goal with
    | |- context [tryAndroidBridge ?e ?s] =>
        destruct (tryAndroidBridge_spec e s) as (found & st' & E & Hpr & Hp & Hf & Ht);
        rewrite E; unfold probe_result in Hpr; rewrite Hpr;
        destruct found;
        [ left; destruct (Ht eq_refl) as (name & api & get & H1 & H2 & H3 & H4 & H5 & H6);
          exists name, api, get, st'
        | right; eexists ]
    end;
    repeat (split; [first [reflexivity|assumption]|]);
    simpl; autorewrite with log_obs; simpl;
    rewrite ?Hp, ?(Hf eq_refl); simpl; autorewrite with log_obs; simpl;
    first [reflexivity | split; reflexivity].
Qed.

End InitFacts.

(** ** Priority of the backends *)

Lemma sync_probe_succeeds env ls :
  window_localStorage env = Some ls -> quota_exceeded ls = false ->
  probe_result env SyncStore = Fulfilled true.
Proof.
  intros Hls Hq. unfold probe_result, tryLocalStorage, ls_setItem.
  rewrite Hls. simpl. rewrite Hq. reflexivity.
Qed.

Lemma ready_init env p st :
  init env = (p, st) ->
  after_init env = st /\
  ready env = match p with
              | Fulfilled _ => Fulfilled st
              | Rejected r => Rejected r
              | Pending => Pending
              end.
Proof. intros H. unfold after_init, ready. rewrite H. split; reflexivity. Qed.

#[local] Ltac tier_index :=
  let i := fresh "i" in
  let t := fresh "t" in
  let Hi := fresh "Hi" in
  let Ht := fresh "Ht" in
  first
    [ intros i t Hi Ht;
      repeat (destruct i as [|i]; [simpl in Ht; injection Ht as <-; assumption|]); lia
    | intros t Ht; simpl in Ht; injection Ht as <-; congruence ].

(** C3. The tiers are probed in the order synchronous store, asynchronous
    store, host bridge, memory: the probes [init] makes are a non-empty
    prefix of that list, every tier before the last one probed had failed,
    and the last one probed did not fail.  In particular, when
    [localStorage] accepts the test write, readiness resolves with
    [backend = 'localStorage'] after that single probe, whatever IndexedDB
    and the bridges offer. *)
Theorem probing_follows_priority (env : environment) :
  (exists n, n < 4 /\
     probes (log (after_init env)) = take (S n) priority /\
     (forall i t, i < n -> priority !! i = Some t ->
        probe_result env t = Fulfilled false) /\
     (forall t, priority !! n = Some t -> probe_result env t <> Fulfilled false)) /\
  (forall ls, window_localStorage env = Some ls -> quota_exceeded ls = false ->
     exists st, ready env = Fulfilled st /\ backend st = "localStorage" /\
                probes (log st) = [SyncStore]).
Proof.
  destruct (init_cases env) as
    [(ls & ls1 & st & Hi & Hs & Hls & Hset & Hb & Hc & Hp)
    |[(db & st & Hi & Hs & Ha & Hdb & Hb & Hc & Hp)
    |[(p & st & Hi & Hsettle & Hs & Ha & Hp)
    |[(name & api & get & st & Hi & Hs & Ha & Hh & Hin & Hw & Hg & Hb & Hc & Hr & Hp)
    |(st & Hi & Hs & Ha & Hh & Hb & Hc & Hp)]]]];
    destruct (ready_init env _ st Hi) as [Hafter Hready]; rewrite Hafter; split.
  - exists 0. split; [lia|]. split; [exact Hp|]. split; tier_index.
  - intros ls' Hls' Hq. exists st. auto.
  - exists 1. split; [lia|]. split; [exact Hp|]. split; tier_index.
  - intros ls' Hls' Hq. rewrite (sync_probe_succeeds env ls' Hls' Hq) in Hs. discriminate.
  - exists 1. split; [lia|]. split; [exact Hp|]. split; [tier_index|].
    intros t Ht. simpl in Ht. injection Ht as <-.
    destruct Ha as [Ha|[r Ha]]; rewrite Ha; discriminate.
  - intros ls' Hls' Hq. rewrite (sync_probe_succeeds env ls' Hls' Hq) in Hs. discriminate.
  - exists 2. split; [lia|]. split; [exact Hp|]. split; tier_index.
  - intros ls' Hls' Hq. rewrite (sync_probe_succeeds env ls' Hls' Hq) in Hs. discriminate.
  - exists 3. split; [lia|]. split; [exact Hp|]. split; [tier_index|].
    intros t Ht. simpl in Ht. injection Ht as <-. discriminate.
  - intros ls' Hls' Hq. rewrite (sync_probe_succeeds env ls' Hls' Hq) in Hs. discriminate.
Qed.

(** The priority statement at work: [localStorage] and IndexedDB are both
    usable, and the synchronous tier is reported. *)
Lemma probing_follows_priority_witness :
  exists st, ready env_sync_ab = Fulfilled st /\ backend st = "localStorage" /\
             probes (log st) = [SyncStore].
Proof.
  apply (proj2 (probing_follows_priority env_sync_ab)
               (mkLS [("a", "1"); ("b", "2")] false)); reflexivity.
Defined.

(** ** Failure of the asynchronous load *)

(** C2. The claim: when the database opens but the cursor request fails,
    [init] goes on to the bridge probe and readiness resolves.  On the
    code, with no [localStorage], a database whose cursor fails, and any
    bridges, cookie and records: the promise [tryIndexedDB] returns is not
    awaited inside its [try], so its rejection becomes the rejection of
    [init] and of [storage.ready]; the bridge is never probed and the tag
    stays ['indexedDB']. *)
Theorem cursor_error_rejects_readiness
    (recs : list (string * value)) (glob : string -> option bridge)
    (cookie : option string) (thr : native_call -> bool) :
  let env := mkEnv None (OpenSuccess (mkDB true recs CursorError)) glob cookie thr in
  ready env = Rejected "cursor-error" /\
  probes (log (after_init env)) = [SyncStore; AsyncStore] /\
  backend (after_init env) = "indexedDB" /\
  persistSet (after_init env) = SetNoop.
Proof. repeat split. Qed.

(** The same run with a working bridge at hand: it would have been taken. *)
Lemma cursor_error_bridge_untried :
  ready env_cursor_error = Rejected "cursor-error" /\
  probe_result env_cursor_error HostBridge = Fulfilled true.
Proof. split; reflexivity. Qed.

(** A failure thrown before the [return] is caught, and [init] goes on. *)
Lemma missing_object_store_falls_through :
  ready env_no_object_store = Fulfilled (after_init env_no_object_store) /\
  probes (log (after_init env_no_object_store)) = priority /\
  backend (after_init env_no_object_store) = "memory".
Proof. repeat split. Qed.

(** ** The memory fallback *)

(** With the three bindings still the empty functions, the facade makes no
    native call. *)
Lemma noop_bindings_step st o :
  persistSet st = SetNoop -> persistRemove st = RemoveNoop -> persistClear st = ClearNoop ->
  log (step st o) = log st /\
  persistSet (step st o) = SetNoop /\ persistRemove (step st o) = RemoveNoop /\
  persistClear (step st o) = ClearNoop.
Proof.
  intros Hs Hr Hc. destruct o as [k v|k|]; simpl;
    unfold setItem, removeItem, clear, run_persistSet, run_persistRemove, run_persistClear;
    simpl; rewrite ?Hs, ?Hr, ?Hc; simpl; repeat split; assumption.
Qed.

Lemma noop_bindings_run ops st :
  persistSet st = SetNoop -> persistRemove st = RemoveNoop -> persistClear st = ClearNoop ->
  log (run ops st) = log st.
Proof.
  unfold run. revert st. induction ops as [|o ops IH]; intros st Hs Hr Hc; simpl; [reflexivity|].
  destruct (noop_bindings_step st o Hs Hr Hc) as (Hl & Hs' & Hr' & Hc').
  rewrite IH by assumption. exact Hl.
Qed.

(** Without any injected object the fallback is a pure in-memory store,
    whatever the cookie string. *)
Lemma bare_fallback_is_pure (cookie : option string) (thr : native_call -> bool)
    (ops : list op) :
  let env := mkEnv None NoIndexedDB no_globals cookie thr in
  ready env = Fulfilled (after_init env) /\
  backend (after_init env) = "memory" /\
  calls (log (run ops (after_init env))) = [].
Proof.
  intros env. split; [reflexivity|]. split; [reflexivity|].
  rewrite noop_bindings_run by reflexivity. reflexivity.
Qed.

(** C5. The claim: when no native backend is available, readiness
    resolves, the tag is ['memory'] and the four operations work on the
    cache alone.  With [window.Android] an object that has [setItem] but no
    [getItem], all three probes fail, readiness resolves and the tag is
    ['memory'], yet [persistSet] was bound to the object before its
    [getItem] was looked at and stays bound: [setItem("a", "1")] calls
    [Android.setItem("a", "1")]. *)
Theorem fallback_keeps_bridge_writer :
  let env := env_write_only_bridge in
  let st := after_init env in
  ready env = Fulfilled st /\
  probe_result env SyncStore = Fulfilled false /\
  probe_result env AsyncStore = Fulfilled false /\
  probe_result env HostBridge = Fulfilled false /\
  backend st = "memory" /\
  persistSet st = SetBridgeSetItem "Android" /\
  calls (log st) = [] /\
  calls (log (setItem "a" (VStr "1") st)) = [Bridge_setItem "Android" "a" "1"] /\
  getItem (setItem "a" (VStr "1") st) "a" = Normal (VStr "1").
Proof. repeat split. Qed.

(** ** The backend tag *)

(** C6. The claim: [storage.backend] is assigned exactly once per run.
    [tryAndroidBridge] assigns the tag as soon as it finds an object, and
    [tryIndexedDB] as soon as the database opens, before either knows that
    the tier will be taken: with a bridge object lacking [getItem] the tag
    goes through ['android:Android'] and then ['memory'], with a database
    lacking its object store through ['indexedDB'] and then ['memory']. *)
Theorem backend_tag_assigned_twice :
  ready env_write_only_bridge = Fulfilled (after_init env_write_only_bridge) /\
  assignments (log (after_init env_write_only_bridge)) = ["android:Android"; "memory"] /\
  ready env_no_object_store = Fulfilled (after_init env_no_object_store) /\
  assignments (log (after_init env_no_object_store)) = ["indexedDB"; "memory"].
Proof. repeat split. Qed.

(** [tryLocalStorage] assigns the tag only after its probe has succeeded:
    a run that takes the synchronous store assigns once. *)
Lemma sync_run_assigns_once :
  assignments (log (after_init env_sync_ab)) = ["localStorage"].
Proof. reflexivity. Qed.

(** ** Bulk load *)

Lemma ready_fulfilled env st :
  ready env = Fulfilled st -> init env = (Fulfilled tt, st).
Proof.
  unfold ready. destruct (init env) as [[[]|r|] st0]; intros H;
    [injection H as ->; reflexivity|discriminate|discriminate].
Qed.

(** The cache a run through the synchronous store ends with. *)
Lemma sync_load_lookup ls ls1 k s :
  ls_setItem ls testKey "1" = Normal ls1 ->
  NoDup ((items ls).*1) -> Forall plain_key ((items ls).*1) ->
  (k, s) ∈ items ls -> k <> "" -> k <> testKey ->
  let ls2 := ls_removeItem ls1 testKey in
  let c := load_localStorage ls2 (ls_length ls2) 0 empty_object in
  intact c /\ own c !! k = Some (VStr s).
Proof.
  intros Hset Hnd Hpl Hin Hk Ht ls2 c.
  assert (Hitems : items ls2 = assoc_remove testKey (items ls)).
  { unfold ls_setItem in Hset. destruct (quota_exceeded ls); [discriminate|].
    injection Hset as <-. unfold ls2, ls_removeItem. simpl. apply assoc_remove_set. }
  assert (Hnd2 : NoDup ((items ls2).*1)).
  { rewrite Hitems, assoc_remove_keys. apply NoDup_List_filter. assumption. }
  assert (Hpl2 : Forall plain_key ((items ls2).*1)).
  { rewrite Hitems, assoc_remove_keys. apply Forall_List_filter. assumption. }
  assert (Hin2 : (k, s) ∈ items ls2).
  { rewrite Hitems. apply elem_of_assoc_remove. split; assumption. }
  apply list_elem_of_lookup_1 in Hin2 as [j Hj].
  destruct (load_localStorage_spec ls2 Hnd2 Hpl2 (ls_length ls2) 0 empty_object)
    as (Hint & Hload & _); [reflexivity|apply intact_empty|].
  split; [exact Hint|]. apply (Hload j k s); [lia|assumption|assumption].
Qed.

(** C7, as the code has it.  After readiness resolved, without any
    [setItem]: when the synchronous store was taken, every entry of
    [localStorage] whose key is neither empty nor the probe's test key is
    returned by [getItem]; when the asynchronous store was taken, every
    record the cursor delivered is.  Both for stores with unique keys, none
    of which is ["hasOwnProperty"] or ["__proto__"]. *)
Theorem bulk_load_fidelity (env : environment) (st : storage) (k : string) :
  ready env = Fulfilled st ->
  (forall ls s,
     backend st = "localStorage" -> window_localStorage env = Some ls ->
     NoDup ((items ls).*1) -> Forall plain_key ((items ls).*1) ->
     (k, s) ∈ items ls -> k <> "" -> k <> testKey ->
     getItem st k = Normal (VStr s)) /\
  (forall db v,
     backend st = "indexedDB" -> window_indexedDB env = OpenSuccess db ->
     NoDup ((records db).*1) -> Forall plain_key ((records db).*1) ->
     (k, v) ∈ records db ->
     getItem st k = Normal v).
Proof.
  intros Hready. apply ready_fulfilled in Hready.
  destruct (init_cases env) as
    [(ls0 & ls1 & st0 & Hi & Hs & Hls & Hset & Hb & Hc & Hp)
    |[(db0 & st0 & Hi & Hs & Ha & Hdb & Hb & Hc & Hp)
    |[(p & st0 & Hi & Hsettle & Hs & Ha & Hp)
    |[(name & api & get & st0 & Hi & Hs & Ha & Hh & Hin & Hw & Hg & Hb & Hc & Hr & Hp)
    |(st0 & Hi & Hs & Ha & Hh & Hb & Hc & Hp)]]]];
    rewrite Hi in Hready.
  - injection Hready as <-. split.
    + intros ls s _ Hls' Hnd Hpl Hks Hk Ht.
      rewrite Hls in Hls'. injection Hls' as <-.
      destruct (sync_load_lookup ls0 ls1 k s Hset Hnd Hpl Hks Hk Ht) as [Hint Hown].
      rewrite <- Hc in Hint, Hown.
      rewrite getItem_intact by assumption. unfold cached. rewrite Hown. reflexivity.
    + intros db v Hb'. rewrite Hb in Hb'. discriminate.
  - injection Hready as <-. split.
    + intros ls s Hb'. rewrite Hb in Hb'. discriminate.
    + intros db v _ Hdb' Hnd Hpl Hkv.
      rewrite Hdb in Hdb'. injection Hdb' as <-.
      destruct (load_cursor_spec (records db0) empty_object Hnd Hpl intact_empty)
        as (Hint & Hown & _).
      rewrite <- Hc in Hint, Hown.
      rewrite getItem_intact by assumption. unfold cached.
      rewrite (Hown k v Hkv). reflexivity.
  - injection Hready as -> _. destruct Hsettle as [Hp0|[r Hp0]]; discriminate.
  - injection Hready as <-. split; intros ? ? Hb'; rewrite Hb in Hb'; discriminate.
  - injection Hready as <-. split; intros ? ? Hb'; rewrite Hb in Hb'; discriminate.
Qed.

(** The entries a and b of the specification, in [localStorage] and in
    IndexedDB. *)
Lemma bulk_load_fidelity_witness :
  getItem (after_init env_sync_ab) "a" = Normal (VStr "1") /\
  getItem (after_init env_async_ab) "b" = Normal (VStr "2").
Proof.
  split.
  - apply (proj1 (bulk_load_fidelity env_sync_ab (after_init env_sync_ab) "a" eq_refl)
                 (mkLS [("a", "1"); ("b", "2")] false) "1"); try reflexivity.
    + simpl. compute_done.
    + repeat constructor; discriminate.
    + compute_done.
    + discriminate.
    + discriminate.
  - apply (proj2 (bulk_load_fidelity env_async_ab (after_init env_async_ab) "b" eq_refl)
                 (mkDB true [("a", VStr "1"); ("b", VStr "2")] CursorEnd) (VStr "2"));
      try reflexivity.
    + simpl. compute_done.
    + repeat constructor; discriminate.
    + do 2 constructor.
Defined.

(** C7, as stated, fails: [localStorage] holds ["z"] under the empty key,
    the synchronous store is taken, and after readiness [getItem("")]
    returns [null]; the loop's [if (k)] skips the entry. *)
Lemma bulk_load_skips_empty_key :
  let ls := mkLS [("a", "1"); ("", "z")] false in
  let st := after_init env_sync_empty_key in
  window_localStorage env_sync_empty_key = Some ls /\
  ls_getItem ls (Some "") = VStr "z" /\
  ready env_sync_empty_key = Fulfilled st /\
  backend st = "localStorage" /\
  getItem st "a" = Normal (VStr "1") /\
  getItem st "" = Normal VNull.
Proof. repeat split. Qed.

(** ** Load from a host bridge *)

(** C8. When readiness resolved with a bridge as the backend, the load read
    exactly the five well-known keys from it, in order; [getItem] returns
    [null] for every other key, whatever the bridge holds under it; and
    every well-known key that the bridge's [getItem] answers with a value
    other than [null] and [undefined] is returned with that value. *)
Theorem host_bridge_partial_load (env : environment) (st : storage) (name : string) :
  ready env = Fulfilled st ->
  backend st = "android:" +:+ name ->
  bridge_reads (log st) = keysToTry /\
  (forall k, k ∉ keysToTry -> getItem st k = Normal VNull) /\
  (exists api get,
     window_global env name = Some api /\ b_getItem api = Some get /\
     forall k v, k ∈ keysToTry -> get k = Normal v -> v <> VNull -> v <> VUndefined ->
       getItem st k = Normal v).
Proof.
  intros Hready Htag. apply ready_fulfilled in Hready.
  destruct (init_cases env) as
    [(ls0 & ls1 & st0 & Hi & Hs & Hls & Hset & Hb & Hc & Hp)
    |[(db0 & st0 & Hi & Hs & Ha & Hdb & Hb & Hc & Hp)
    |[(p & st0 & Hi & Hsettle & Hs & Ha & Hp)
    |[(name0 & api & get & st0 & Hi & Hs & Ha & Hh & Hin & Hw & Hg & Hb & Hc & Hr & Hp)
    |(st0 & Hi & Hs & Ha & Hh & Hb & Hc & Hp)]]]];
    rewrite Hi in Hready.
  - injection Hready as <-. rewrite Hb in Htag. discriminate.
  - injection Hready as <-. rewrite Hb in Htag. discriminate.
  - injection Hready as -> _. destruct Hsettle as [Hp0|[r Hp0]]; discriminate.
  - injection Hready as <-. rewrite Hb in Htag.
    assert (name0 = name) as -> by (cbv in Htag; congruence).
    destruct (load_key_cache_spec get keysToTry keysToTry_plain empty_object intact_empty)
      as (Hint & Hout & Hload).
    rewrite <- Hc in Hint, Hout, Hload.
    split; [exact Hr|]. split.
    + intros k Hk. apply getItem_absent; [assumption|].
      rewrite (Hout k Hk). apply lookup_empty.
    + exists api, get. split; [assumption|]. split; [assumption|].
      intros k v Hk Hget Hn Hu.
      rewrite getItem_intact by assumption. unfold cached.
      rewrite (Hload k v Hk Hget Hn Hu). reflexivity.
  - injection Hready as <-. rewrite Hb in Htag. discriminate.
Qed.

(** The bridge of the specification's example: it holds ["x"], which is not
    a well-known key, and the well-known ["migstar_user"]. *)
Lemma host_bridge_partial_load_witness :
  sample_getItem "x" = Normal (VStr "9") /\
  getItem (after_init env_bridge) "x" = Normal VNull /\
  getItem (after_init env_bridge) "migstar_user" = Normal (VStr "{}").
Proof.
  destruct (host_bridge_partial_load env_bridge (after_init env_bridge) "Android"
              eq_refl eq_refl) as (_ & Hother & api & get & Hw & Hg & Hknown).
  split; [reflexivity|]. split.
  - apply Hother. compute_done.
  - injection Hw as <-. injection Hg as <-.
    apply Hknown; [compute_done|reflexivity|discriminate|discriminate].
Defined.

(** ** Cookies in the memory fallback *)

(** An entry one of whose decodings throws leaves the cache as it was. *)
Lemma load_cookie_undecodable c e : undecodable e = true -> load_cookie c e = c.
Proof.
  unfold undecodable, decode_throws, load_cookie. intros H.
  destruct (decodeURIComponent_opt (e !! 0)); [|reflexivity].
  destruct (decodeURIComponent_opt (e !! 1)); [discriminate|reflexivity].
Qed.

Lemma load_cookies_filter entries c :
  fold_left load_cookie entries c =
  fold_left load_cookie (List.filter (fun e => negb (undecodable e)) entries) c.
Proof.
  revert c. induction entries as [|e es IH]; intros c; simpl; [reflexivity|].
  destruct (undecodable e) eqn:He; simpl.
  - rewrite load_cookie_undecodable by assumption. apply IH.
  - apply IH.
Qed.

(** C9, as the code has it.  A cookie entry whose name or value is not
    valid percent-encoding, so that [decodeURIComponent] throws, adds
    nothing to the cache, and the cookies are loaded as if those entries
    were not there: the entries after such an entry are still loaded. *)
Theorem undecodable_cookies_are_skipped (env : environment) (c : object) :
  (forall e, undecodable e = true -> load_cookie c e = c) /\
  load_cookies env c =
    match document_cookie env with
    | None => c
    | Some s =>
      fold_left load_cookie
        (List.filter (fun e => negb (undecodable e)) (parse_cookies s)) c
    end.
Proof.
  split.
  - intros e. apply load_cookie_undecodable.
  - unfold load_cookies. destruct (document_cookie env); [|reflexivity].
    apply load_cookies_filter.
Qed.

(** A truncated escape in the middle of the cookie string. *)
Lemma undecodable_cookies_are_skipped_witness :
  load_cookie empty_object ["x"; "%E0%A4%A"] = empty_object /\
  cached (load_cookies (mkEnv None NoIndexedDB no_globals (Some "a=1; x=%E0%A4%A; b=2") no_faults)
            empty_object) "b" = VStr "2".
Proof.
  split.
  - apply (proj1 (undecodable_cookies_are_skipped env_bare empty_object)). reflexivity.
  - rewrite (proj2 (undecodable_cookies_are_skipped _ empty_object)). reflexivity.
Defined.

(** C9, as stated, fails: in [document.cookie = "a=1; foo; b=2"] the entry
    [foo] has no [=]; it is not skipped but stored under ["foo"] with the
    string ["undefined"], which is what [decodeURIComponent(undefined)]
    returns. *)
Lemma cookie_without_equals_is_loaded :
  let st := after_init env_cookie in
  document_cookie env_cookie = Some "a=1; foo; b=2" /\
  parse_cookies "a=1; foo; b=2" = [["a"; "1"]; ["foo"]; ["b"; "2"]] /\
  ready env_cookie = Fulfilled st /\
  backend st = "memory" /\
  getItem st "foo" = Normal (VStr "undefined") /\
  getItem st "b" = Normal (VStr "2").
Proof. repeat split. Qed.

(** * Further properties of the wrapper *)

(** ** The facade on its own *)

Section FacadeMore.

Implicit Types (st : storage) (k : string) (v : value).

Lemma getItem_same_cache st1 st2 k :
  _cache st1 = _cache st2 -> getItem st1 k = getItem st2 k.
Proof. intros H. unfold getItem. rewrite H. reflexivity. Qed.

Lemma cache_step_same st1 st2 o :
  _cache st1 = _cache st2 -> _cache (step st1 o) = _cache (step st2 o).
Proof.
  intros H. destruct o as [k v|k|]; simpl;
    rewrite ?cache_setItem, ?cache_removeItem, ?cache_clear, ?H; reflexivity.
Qed.

Lemma cache_run_same ops st1 st2 :
  _cache st1 = _cache st2 -> _cache (run ops st1) = _cache (run ops st2).
Proof.
  unfold run. revert st1 st2. induction ops as [|o ops IH]; intros st1 st2 H; simpl.
  - exact H.
  - apply IH. apply cache_step_same. exact H.
Qed.

(** X1. [clear()] leaves a wrapper on which every key reads [null],
    whatever the cache was before, also one on which reads threw; a second
    [clear()] changes nothing in the cache. *)
Theorem clear_empties_cache st k :
  getItem (clear st) k = Normal VNull /\
  _cache (clear (clear st)) = _cache (clear st).
Proof.
  split.
  - apply getItem_absent; rewrite cache_clear; [apply intact_empty|apply lookup_empty].
  - rewrite !cache_clear. reflexivity.
Qed.

(** X2. On a cache whose method lookup works, [removeItem(k)] makes [k]
    read [null] and leaves the reads of all other keys as they were. *)
Theorem removeItem_forgets_key st k k' :
  intact (_cache st) ->
  getItem (removeItem k st) k = Normal VNull /\
  (k' <> k -> getItem (removeItem k st) k' = getItem st k').
Proof.
  intros Hi.
  assert (Hi' : intact (_cache (removeItem k st))).
  { rewrite cache_removeItem. apply delete_intact. exact Hi. }
  split.
  - apply getItem_absent; [exact Hi'|].
    rewrite cache_removeItem. simpl. apply lookup_delete_eq.
  - intros Hne. rewrite !getItem_intact by assumption. unfold cached.
    rewrite cache_removeItem. simpl. rewrite lookup_delete_ne by congruence. reflexivity.
Qed.

Lemma removeItem_forgets_key_witness :
  getItem (removeItem "a" (setItem "b" (VStr "2") (setItem "a" (VStr "1") (initial env_bare)))) "a"
    = Normal VNull /\
  getItem (removeItem "a" (setItem "b" (VStr "2") (setItem "a" (VStr "1") (initial env_bare)))) "b"
    = Normal (VStr "2").
Proof.
  pose (st := setItem "b" (VStr "2") (setItem "a" (VStr "1") (initial env_bare))).
  assert (Hi : intact (_cache st)) by (split; reflexivity).
  destruct (removeItem_forgets_key st "a" "b" Hi) as [H1 H2].
  split; [exact H1|].
  transitivity (getItem st "b"); [apply H2; discriminate|reflexivity].
Defined.

(** X3. The damage of [setItem("hasOwnProperty", v)] is undone by
    [removeItem("hasOwnProperty")]: on a cache whose method lookup worked
    before, every key then reads as it did before the two calls. *)
Theorem removeItem_restores_reads st v k :
  intact (_cache st) ->
  getItem (removeItem "hasOwnProperty" (setItem "hasOwnProperty" v st)) k = getItem st k.
Proof.
  intros [Hp Hm]. apply getItem_same_cache.
  rewrite cache_removeItem, cache_setItem, put_own by discriminate.
  unfold delete_property. simpl.
  rewrite delete_insert_eq, (delete_id _ _ Hm).
  destruct (_cache st); reflexivity.
Qed.

Lemma removeItem_restores_reads_witness :
  getItem (removeItem "hasOwnProperty"
             (setItem "hasOwnProperty" (VStr "x") (setItem "a" (VStr "1") (initial env_bare)))) "a"
  = Normal (VStr "1").
Proof.
  rewrite (removeItem_restores_reads (setItem "a" (VStr "1") (initial env_bare)) (VStr "x") "a").
  - reflexivity.
  - split; reflexivity.
Defined.

(** X4. What the facade reads back depends on the cache alone: two
    wrappers with the same cache, bound to different backends and with
    different persistence calls failing, return the same for every key
    after the same sequence of calls. *)
Theorem reads_ignore_persistence ops st1 st2 k :
  _cache st1 = _cache st2 ->
  getItem (run ops st1) k = getItem (run ops st2) k.
Proof. intros H. apply getItem_same_cache, cache_run_same, H. Qed.

Lemma reads_ignore_persistence_witness :
  getItem (run [SetItem "a" (VStr "1"); Clear; SetItem "b" VNull]
             (after_init env_sync_ab)) "b"
  = getItem (run [SetItem "a" (VStr "1"); Clear; SetItem "b" VNull]
               (set_cache (_cache (after_init env_sync_ab))
                  (initial (mkEnv None NoIndexedDB no_globals None all_faults)))) "b".
Proof. apply reads_ignore_persistence. reflexivity. Defined.

(** X5. [setItem] stores [String(value)]: on a key other than
    ["hasOwnProperty"] and ["__proto__"], with a working cache, a value
    that is [null], [undefined] or a boolean is read back as its string
    form; in particular [setItem(k, null)] does not remove the key. *)
Theorem setItem_stores_string st k v :
  plain_key k -> intact (_cache st) ->
  getItem (setItem k v st) k = Normal (VStr (String_ v)) /\
  getItem (setItem k v st) k <> Normal VNull.
Proof.
  intros Hk Hi.
  destruct (cache_first_plain_keys [SetItem k v] st k) as [_ H].
  - constructor; [exact Hk|constructor].
  - exact Hi.
  - simpl in H. rewrite String.eqb_refl in H. unfold run in H. simpl in H.
    rewrite H. split; [reflexivity|discriminate].
Qed.

Lemma setItem_stores_string_witness :
  getItem (setItem "a" VNull (initial env_bare)) "a" = Normal (VStr "null").
Proof.
  apply (setItem_stores_string (initial env_bare) "a" VNull).
  - split; discriminate.
  - split; reflexivity.
Defined.

End FacadeMore.

(** ** Bindings and native calls of a run of [init] *)

Section InitBindings.

Lemma load_keys_bindings env_name get ks st :
  let st' := fold_left (load_key env_name get) ks st in
  persistRemove st' = persistRemove st /\
  persistClear st' = persistClear st /\
  calls (log st') = calls (log st) ++ List.map (Bridge_getItem env_name) ks.
Proof.
  revert st. induction ks as [|k ks IH]; intros st; simpl.
  - rewrite app_nil_r. repeat split.
  - destruct (IH (load_key env_name get st k)) as (Hr & Hc & Hl).
    rewrite Hr, Hc, Hl. clear.
    unfold load_key.
    destruct (get k) as [[| |b|s]|e]; simpl;
      autorewrite with log_obs; simpl; rewrite <- ?app_assoc; repeat split.
Qed.

Lemma not_usable_absent env n : window_global env n = None -> ~ usable_bridge env n.
Proof. intros H (api & get & Hw & _). congruence. Qed.

Lemma not_usable_mute env n api :
  window_global env n = Some api -> b_getItem api = None -> ~ usable_bridge env n.
Proof. intros H Hg (api' & get & Hw & Hg'). congruence. Qed.

(** The candidate loop once more, now for the bindings, the native calls
    and the place of the bridge taken among the candidates. *)
Lemma bridge_loop_bindings env names st found st' :
  bridge_loop env names st = (found, st') ->
  persistClear st' = persistClear st /\
  (found = false ->
     persistRemove st' = persistRemove st /\ calls (log st') = calls (log st) /\
     forall n, In n names -> ~ usable_bridge env n) /\
  (found = true ->
     exists pre name post api get,
       names = pre ++ name :: post /\
       (forall n, In n pre -> ~ usable_bridge env n) /\
       window_global env name = Some api /\ b_getItem api = Some get /\
       backend st' = "android:" +:+ name /\
       persistSet st' = bridge_set_binding name api /\
       persistRemove st' = RemoveBridge name (b_removeItem api) /\
       calls (log st') = calls (log st) ++ List.map (Bridge_getItem name) keysToTry).
Proof.
  revert st found st'. induction names as [|name rest IH]; intros st found st' H.
  - apply pair_equal_spec in H. destruct H as [<- <-].
    split; [reflexivity|]. split; [|discriminate].
    intros _. split; [reflexivity|]. split; [reflexivity|]. intros n [].
  - rewrite bridge_loop_cons in H.
    destruct (window_global env name) as [api|] eqn:Hw.
    + cbv zeta in H. destruct (b_getItem api) as [get|] eqn:Hg.
      * apply pair_equal_spec in H. destruct H as [<- <-].
        match goal with |- context [fold_left (load_key name get) keysToTry ?s] =>
          destruct (load_keys_bindings name get keysToTry s) as (Hr & Hc & Hl);
          destruct (load_keys_spec name get keysToTry s) as (_ & Hb & Hs & _) end.
        split; [|split; [discriminate|intros _]].
        -- rewrite Hc. destruct (b_setItem api), (b_set api); reflexivity.
        -- exists [], name, rest, api, get.
           split; [reflexivity|]. split; [intros n []|].
           split; [assumption|]. split; [assumption|].
           split; [rewrite Hb; destruct (b_setItem api), (b_set api); reflexivity|].
           split; [rewrite Hs; unfold bridge_set_binding;
                   destruct (b_setItem api), (b_set api); reflexivity|].
           split; [rewrite Hr; destruct (b_setItem api), (b_set api); reflexivity|].
           rewrite Hl. destruct (b_setItem api), (b_set api); simpl;
             autorewrite with log_obs; simpl; rewrite app_nil_r; reflexivity.
      * apply IH in H. destruct H as (Hc & Hf & Ht).
        assert (Hpre : forall st0 : storage,
                  st0 = (if b_setItem api
                         then set_persistSet (SetBridgeSetItem name) (set_backend ("android:" +:+ name) st)
                         else if b_set api
                              then set_persistSet (SetBridgeSet name) (set_backend ("android:" +:+ name) st)
                              else set_persistSet SetBridgeWarn (set_backend ("android:" +:+ name) st)) ->
                  persistClear st0 = persistClear st /\ persistRemove st0 = persistRemove st /\
                  calls (log st0) = calls (log st)).
        { intros st0 ->. destruct (b_setItem api), (b_set api); simpl;
            autorewrite with log_obs; simpl; rewrite !app_nil_r; repeat split. }
        destruct (Hpre _ eq_refl) as (Hc0 & Hr0 & Hl0).
        split; [congruence|]. split.
        -- intros Hfalse. destruct (Hf Hfalse) as (Hr & Hl & Hn).
           split; [congruence|]. split; [congruence|].
           intros n [<-|Hin]; [eapply not_usable_mute; eassumption|apply Hn; assumption].
        -- intros Htrue.
           destruct (Ht Htrue) as (pre & n & post & a & g & Hnames & Hpren & Hwn & Hgn & Hb & Hs & Hr & Hl).
           exists (name :: pre), n, post, a, g.
           split; [simpl; congruence|].
           split; [intros m [<-|Hin]; [eapply not_usable_mute; eassumption|apply Hpren; assumption]|].
           repeat (split; [assumption|]). congruence.
    + apply IH in H. destruct H as (Hc & Hf & Ht).
      split; [assumption|]. split.
      * intros Hfalse. destruct (Hf Hfalse) as (Hr & Hl & Hn).
        split; [assumption|]. split; [assumption|].
        intros n [<-|Hin]; [apply not_usable_absent; assumption|apply Hn; assumption].
      * intros Htrue.
        destruct (Ht Htrue) as (pre & n & post & a & g & Hnames & Hpren & Hrest).
        exists (name :: pre), n, post, a, g.
        split; [simpl; congruence|].
        split; [intros m [<-|Hin]; [apply not_usable_absent; assumption|apply Hpren; assumption]|].
        assumption.
Qed.

Lemma tryAndroidBridge_bindings env st :
  exists found st',
    tryAndroidBridge env st = (Fulfilled found, st') /\
    persistClear st' = persistClear st /\
    (found = false ->
       persistRemove st' = persistRemove st /\ calls (log st') = calls (log st) /\
       forall n, In n candidates -> ~ usable_bridge env n) /\
    (found = true ->
       exists pre name post api get,
         candidates = pre ++ name :: post /\
         (forall n, In n pre -> ~ usable_bridge env n) /\
         window_global env name = Some api /\ b_getItem api = Some get /\
         backend st' = "android:" +:+ name /\
         persistSet st' = bridge_set_binding name api /\
         persistRemove st' = RemoveBridge name (b_removeItem api) /\
         calls (log st') = calls (log st) ++ List.map (Bridge_getItem name) keysToTry).
Proof.
  unfold tryAndroidBridge.
  destruct (bridge_loop env candidates (emit (Probed HostBridge) st)) as [found st'] eqn:E.
  exists found, st'. split; [reflexivity|].
  apply bridge_loop_bindings in E. destruct E as (Hc & Hf & Ht).
  split; [exact Hc|]. split.
  - intros Hfound. destruct (Hf Hfound) as (Hr & Hl & Hn).
    split; [exact Hr|]. split; [|exact Hn].
    rewrite Hl. simpl. autorewrite with log_obs. simpl. apply app_nil_r.
  - intros Hfound.
    destruct (Ht Hfound) as (pre & n & post & a & g & H1 & H2 & H3 & H4 & H5 & H6 & H7 & H8).
    exists pre, n, post, a, g. repeat (split; [assumption|]).
    rewrite H8. simpl. autorewrite with log_obs. simpl. rewrite app_nil_r. reflexivity.
Qed.

End InitBindings.

Section InitRuns.

Lemma probe_call_reads name :
  In name candidates -> Forall probe_call (List.map (Bridge_getItem name) keysToTry).
Proof.
  intros Hn. apply Forall_forall. intros c Hc.
  apply list_elem_of_In, in_map_iff in Hc. destruct Hc as (k & <- & Hk).
  right. right. exists name, k. auto.
Qed.

#[local] Ltac sync_unav :=
  first [ left; reflexivity | right; eexists; split; reflexivity ].

#[local] Ltac async_unav :=
  first [ left; reflexivity
        | right; left; reflexivity
        | right; right; eexists; split; reflexivity ].

#[local] Ltac few_probe_calls :=
  simpl; autorewrite with log_obs; simpl;
  repeat (constructor; [left; reflexivity|]); constructor.

(** Every run of [init] again, with the bindings it leaves, the native
    calls it made and what the environment was like. *)
Lemma init_bindings env :
  (exists ls st,
     init env = (Fulfilled tt, st) /\
     window_localStorage env = Some ls /\ quota_exceeded ls = false /\
     backend st = "localStorage" /\
     persistSet st = SetLocalStorage /\ persistRemove st = RemoveLocalStorage /\
     persistClear st = ClearLocalStorage /\
     calls (log st) = [LS_setItem testKey "1"; LS_removeItem testKey])
  \/
  (exists db st,
     init env = (Fulfilled tt, st) /\ sync_unavailable env /\
     window_indexedDB env = OpenSuccess db /\ has_kv db = true /\ cursor db = CursorEnd /\
     backend st = "indexedDB" /\
     persistSet st = SetIndexedDB /\ persistRemove st = RemoveIndexedDB /\
     persistClear st = ClearIndexedDB /\
     Forall probe_call (calls (log st)))
  \/
  (exists p st,
     init env = (p, st) /\ sync_unavailable env /\
     ((p = Rejected "cursor-error" /\
       exists db, window_indexedDB env = OpenSuccess db /\ has_kv db = true /\
                  cursor db = CursorError) \/
      (p = Pending /\
       (window_indexedDB env = OpenSilent \/
        exists db, window_indexedDB env = OpenSuccess db /\ has_kv db = true /\
                   cursor db = CursorSilent))) /\
     persistSet st = SetNoop /\ persistRemove st = RemoveNoop /\
     persistClear st = ClearNoop /\
     Forall probe_call (calls (log st)))
  \/
  (exists pre name post api get st,
     init env = (Fulfilled tt, st) /\ sync_unavailable env /\ async_unavailable env /\
     candidates = pre ++ name :: post /\
     (forall n, In n pre -> ~ usable_bridge env n) /\
     window_global env name = Some api /\ b_getItem api = Some get /\
     backend st = "android:" +:+ name /\
     persistSet st = bridge_set_binding name api /\
     persistRemove st = RemoveBridge name (b_removeItem api) /\
     persistClear st = ClearNoop /\
     Forall probe_call (calls (log st)))
  \/
  (exists st,
     init env = (Fulfilled tt, st) /\ sync_unavailable env /\ async_unavailable env /\
     (forall n, In n candidates -> ~ usable_bridge env n) /\
     backend st = "memory" /\
     persistRemove st = RemoveNoop /\ persistClear st = ClearNoop /\
     Forall probe_call (calls (log st))).
Proof.
  destruct env as [wls idb glob cookie thr].
  destruct wls as [[its [|]]|].
  2: { left. eexists _, _. unfold init, tryLocalStorage, await; simpl.
       repeat (split; [reflexivity|]). reflexivity. }
  all: right.
  all: destruct idb as [| | |[[|] recs [| |]]].
  all: unfold init, tryLocalStorage, tryIndexedDB, await, openIndexedDB; simpl.
  all: first
    [ (* the asynchronous store is taken *)
      left; eexists _, _; split; [reflexivity|]; split; [sync_unav|];
      repeat (split; [reflexivity|]); few_probe_calls
    | (* rejected *)
      right; left; eexists _, _; split; [reflexivity|]; split; [sync_unav|];
      split; [left; split; [reflexivity|]; eexists; repeat split|];
      repeat (split; [reflexivity|]); few_probe_calls
    | (* pending on the cursor *)
      right; left; eexists _, _; split; [reflexivity|]; split; [sync_unav|];
      split; [right; split; [reflexivity|]; right; eexists; repeat split|];
      repeat (split; [reflexivity|]); few_probe_calls
    | (* pending on the open *)
      right; left; eexists _, _; split; [reflexivity|]; split; [sync_unav|];
      split; [right; split; [reflexivity|]; left; reflexivity|];
      repeat (split; [reflexivity|]); few_probe_calls
    | (* bridge or memory *)
      right; right;
      match goal with
      | |- context [tryAndroidBridge ?e ?s] =>
          destruct (tryAndroidBridge_bindings e s) as (found & st' & E & Hc & Hf & Ht);
          rewrite E; destruct found;
          [ left;
            destruct (Ht eq_refl) as (pre & name & post & api & get & H1 & H2 & H3 & H4 & H5 & H6 & H7 & H8);
            exists pre, name, post, api, get, st';
            split; [reflexivity|]; split; [sync_unav|]; split; [async_unav|];
            repeat (split; [first [assumption | rewrite Hc; reflexivity]|]);
            rewrite H8; apply Forall_app; split;
            [ few_probe_calls
            | apply probe_call_reads; rewrite H1; apply in_elt ]
          | right;
            destruct (Hf eq_refl) as (Hr & Hl & Hn);
            eexists; split; [reflexivity|]; split; [sync_unav|]; split; [async_unav|];
            split; [exact Hn|]; split; [reflexivity|];
            split; [simpl; rewrite Hr; reflexivity|];
            split; [simpl; rewrite Hc; reflexivity|];
            simpl; autorewrite with log_obs; simpl; rewrite !app_nil_r, Hl;
            few_probe_calls ]
      end ].
Qed.

End InitRuns.

(** ** What the facade sends to the backend *)

Section Dispatch.

Implicit Types (st : storage) (o : op).

(** The facade never rebinds the persistence functions. *)
Lemma bindings_step st o :
  persistSet (step st o) = persistSet st /\
  persistRemove (step st o) = persistRemove st /\
  persistClear (step st o) = persistClear st.
Proof.
  destruct o as [k v|k|]; simpl;
    unfold setItem, removeItem, clear, run_persistSet, run_persistRemove,
      run_persistClear, try_call_warn, try_call; simpl.
  - destruct (persistSet st) eqn:E; simpl; rewrite ?E; simpl; repeat split;
      try match goal with |- context [if ?b then _ else _] => destruct b end;
      simpl; rewrite ?E; reflexivity.
  - destruct (persistRemove st) as [| | |n []] eqn:E; simpl; rewrite ?E; simpl;
      repeat split; simpl; rewrite ?E; reflexivity.
  - destruct (persistClear st) eqn:E; simpl; rewrite ?E; simpl;
      repeat split; simpl; rewrite ?E; reflexivity.
Qed.

Lemma calls_step_sync st o :
  persistSet st = SetLocalStorage -> persistRemove st = RemoveLocalStorage ->
  persistClear st = ClearLocalStorage ->
  calls (log (step st o)) = calls (log st) ++ [ls_call o].
Proof.
  intros Hs Hr Hc. destruct o as [k v|k|]; simpl;
    unfold setItem, removeItem, clear, run_persistSet, run_persistRemove,
      run_persistClear, try_call_warn, try_call; simpl; rewrite ?Hs, ?Hr, ?Hc; simpl;
    try match goal with |- context [if ?b then _ else _] => destruct b end;
    simpl; autorewrite with log_obs; simpl; rewrite ?app_nil_r; reflexivity.
Qed.

Lemma calls_step_async st o :
  persistSet st = SetIndexedDB -> persistRemove st = RemoveIndexedDB ->
  persistClear st = ClearIndexedDB ->
  calls (log (step st o)) = calls (log st) ++ [idb_call o].
Proof.
  intros Hs Hr Hc. destruct o as [k v|k|]; simpl;
    unfold setItem, removeItem, clear, run_persistSet, run_persistRemove,
      run_persistClear, try_call_warn, try_call; simpl; rewrite ?Hs, ?Hr, ?Hc; simpl;
    try match goal with |- context [if ?b then _ else _] => destruct b end;
    simpl; autorewrite with log_obs; simpl; rewrite ?app_nil_r; reflexivity.
Qed.

Lemma calls_step_bridge name api st o :
  persistSet st = bridge_set_binding name api ->
  persistRemove st = RemoveBridge name (b_removeItem api) ->
  persistClear st = ClearNoop ->
  calls (log (step st o)) = calls (log st) ++ bridge_calls name api o.
Proof.
  intros Hs Hr Hc. unfold bridge_set_binding in Hs.
  destruct o as [k v|k|]; simpl;
    unfold setItem, removeItem, clear, run_persistSet, run_persistRemove,
      run_persistClear, try_call_warn, try_call; simpl; rewrite ?Hs, ?Hr, ?Hc; simpl.
  - destruct (b_setItem api), (b_set api); simpl;
      try match goal with |- context [if ?b then _ else _] => destruct b end;
      simpl; autorewrite with log_obs; simpl; rewrite ?app_nil_r; reflexivity.
  - destruct (b_removeItem api); simpl; autorewrite with log_obs; simpl;
      rewrite ?app_nil_r; reflexivity.
  - rewrite app_nil_r. reflexivity.
Qed.

Lemma calls_run_sync ops st :
  persistSet st = SetLocalStorage -> persistRemove st = RemoveLocalStorage ->
  persistClear st = ClearLocalStorage ->
  calls (log (run ops st)) = calls (log st) ++ List.map ls_call ops.
Proof.
  unfold run. revert st. induction ops as [|o ops IH]; intros st Hs Hr Hc; simpl.
  - rewrite app_nil_r. reflexivity.
  - destruct (bindings_step st o) as (Hs' & Hr' & Hc').
    rewrite IH by congruence. rewrite calls_step_sync by assumption.
    rewrite <- app_assoc. reflexivity.
Qed.

Lemma calls_run_async ops st :
  persistSet st = SetIndexedDB -> persistRemove st = RemoveIndexedDB ->
  persistClear st = ClearIndexedDB ->
  calls (log (run ops st)) = calls (log st) ++ List.map idb_call ops.
Proof.
  unfold run. revert st. induction ops as [|o ops IH]; intros st Hs Hr Hc; simpl.
  - rewrite app_nil_r. reflexivity.
  - destruct (bindings_step st o) as (Hs' & Hr' & Hc').
    rewrite IH by congruence. rewrite calls_step_async by assumption.
    rewrite <- app_assoc. reflexivity.
Qed.

Lemma calls_run_bridge name api ops st :
  persistSet st = bridge_set_binding name api ->
  persistRemove st = RemoveBridge name (b_removeItem api) ->
  persistClear st = ClearNoop ->
  calls (log (run ops st)) = calls (log st) ++ flat_map (bridge_calls name api) ops.
Proof.
  unfold run. revert st. induction ops as [|o ops IH]; intros st Hs Hr Hc; simpl.
  - rewrite app_nil_r. reflexivity.
  - destruct (bindings_step st o) as (Hs' & Hr' & Hc').
    rewrite IH by congruence. rewrite (calls_step_bridge name api) by assumption.
    rewrite <- app_assoc. reflexivity.
Qed.

End Dispatch.

#[local] Ltac init_kinds env Hready :=
  apply ready_fulfilled in Hready;
  destruct (init_bindings env) as
    [(?ls & ?st0 & Hi & Hls & Hq & Hb & Hps & Hpr & Hpc & Hcalls)
    |[(?db & ?st0 & Hi & Hsu & Hdb & Hkv & Hcur & Hb & Hps & Hpr & Hpc & Hcalls)
    |[(?p & ?st0 & Hi & Hsu & Hsettle & Hps & Hpr & Hpc & Hcalls)
    |[(?pre & ?name0 & ?post & ?api & ?get & ?st0 & Hi & Hsu & Hau & Hcand & Hpre & Hw & Hg
         & Hb & Hps & Hpr & Hpc & Hcalls)
    |(?st0 & Hi & Hsu & Hau & Hnone & Hb & Hpr & Hpc & Hcalls)]]]];
  rewrite Hi in Hready;
  [ injection Hready as ->
  | injection Hready as ->
  | exfalso; injection Hready as -> _;
    destruct Hsettle as [[Hp _]|[Hp _]]; discriminate
  | injection Hready as ->
  | injection Hready as -> ].

(** X6. Once readiness resolved with [backend = 'localStorage'], every
    facade call is forwarded to [localStorage] as exactly one native call,
    in call order: [setItem] with the coerced string, [removeItem],
    [clear]. Whether those calls throw plays no role. *)
Theorem sync_backend_dispatch (env : environment) (st : storage) (ops : list op) :
  ready env = Fulfilled st -> backend st = "localStorage" ->
  calls (log (run ops st)) = calls (log st) ++ List.map ls_call ops.
Proof.
  intros Hready Htag. init_kinds env Hready;
    try (rewrite Hb in Htag; discriminate).
  apply calls_run_sync; assumption.
Qed.

Lemma sync_backend_dispatch_witness :
  calls (log (run [SetItem "a" VNull; RemoveItem "b"; Clear] (after_init env_sync_ab)))
  = [LS_setItem testKey "1"; LS_removeItem testKey;
     LS_setItem "a" "null"; LS_removeItem "b"; LS_clear].
Proof.
  rewrite (sync_backend_dispatch env_sync_ab (after_init env_sync_ab)); reflexivity.
Defined.

(** X7. Once readiness resolved with [backend = 'indexedDB'], every facade
    call opens one write on the object store, in call order: [put(v, k)],
    [delete(k)], [clear()]. *)
Theorem async_backend_dispatch (env : environment) (st : storage) (ops : list op) :
  ready env = Fulfilled st -> backend st = "indexedDB" ->
  calls (log (run ops st)) = calls (log st) ++ List.map idb_call ops.
Proof.
  intros Hready Htag. init_kinds env Hready;
    try (rewrite Hb in Htag; discriminate).
  apply calls_run_async; assumption.
Qed.

Lemma async_backend_dispatch_witness :
  calls (log (run [SetItem "a" (VStr "1"); Clear] (after_init env_async_ab)))
  = [IDB_put "1" "a"; IDB_clear].
Proof.
  rewrite (async_backend_dispatch env_async_ab (after_init env_async_ab)); reflexivity.
Defined.

(** X8. Once readiness resolved with a bridge as the backend, [setItem]
    goes to the bridge's [setItem], else to its [set], else nowhere;
    [removeItem] reaches the bridge only if it has a [removeItem]; and
    [clear()] never reaches the bridge: [persistClear] stays the empty
    function. *)
Theorem bridge_backend_dispatch (env : environment) (st : storage) (name : string)
    (ops : list op) :
  ready env = Fulfilled st -> backend st = "android:" +:+ name ->
  exists api,
    window_global env name = Some api /\
    calls (log (run ops st)) = calls (log st) ++ flat_map (bridge_calls name api) ops /\
    calls (log (clear st)) = calls (log st).
Proof.
  intros Hready Htag. init_kinds env Hready;
    try (rewrite Hb in Htag; discriminate).
  rewrite Hb in Htag.
  assert (name0 = name) as -> by (cbv in Htag; congruence).
  exists api. split; [assumption|]. split.
  - apply calls_run_bridge; assumption.
  - pose proof (calls_step_bridge name api st Clear Hps Hpr Hpc) as H.
    simpl in H. rewrite app_nil_r in H. exact H.
Qed.

Lemma bridge_backend_dispatch_witness :
  calls (log (run [SetItem "a" (VStr "1"); Clear; RemoveItem "a"] (after_init env_bridge)))
  = List.map (Bridge_getItem "Android") keysToTry ++
    [Bridge_setItem "Android" "a" "1"; Bridge_removeItem "Android" "a"].
Proof.
  destruct (bridge_backend_dispatch env_bridge (after_init env_bridge) "Android"
              [SetItem "a" (VStr "1"); Clear; RemoveItem "a"] eq_refl eq_refl)
    as (api & Hw & Hcalls & _).
  injection Hw as <-. rewrite Hcalls. reflexivity.
Defined.

(** ** Which tier is taken, and when readiness settles *)

#[local] Ltac clash :=
  repeat match goal with
         | H : _ /\ _ |- _ => destruct H
         | H : exists _, _ |- _ => destruct H
         | H : _ \/ _ |- _ => destruct H
         | H : sync_unavailable _ |- _ => unfold sync_unavailable in H
         | H : async_unavailable _ |- _ => unfold async_unavailable in H
         end;
  try congruence.

#[local] Ltac all_kinds env :=
  destruct (init_bindings env) as
    [(?ls & ?st0 & Hi & Hls & Hq & Hb & Hps & Hpr & Hpc & Hcalls)
    |[(?db & ?st0 & Hi & Hsu & Hdb & Hkv & Hcur & Hb & Hps & Hpr & Hpc & Hcalls)
    |[(?p & ?st0 & Hi & Hsu & Hsettle & Hps & Hpr & Hpc & Hcalls)
    |[(?pre & ?name0 & ?post & ?api & ?get & ?st0 & Hi & Hsu & Hau & Hcand & Hpre & Hw & Hg
         & Hb & Hps & Hpr & Hpc & Hcalls)
    |(?st0 & Hi & Hsu & Hau & Hnone & Hb & Hpr & Hpc & Hcalls)]]]];
  destruct (ready_init env _ _ Hi) as [Hafter Hready].

(** X9. When readiness does not resolve (the cursor request failed, or
    IndexedDB never answered), the three persistence functions are still
    the empty defaults: whatever is then done through the facade stays in
    memory, no call reaches any backend. *)
Theorem unsettled_run_persists_nothing (env : environment) (ops : list op) :
  (forall st, ready env <> Fulfilled st) ->
  persistSet (after_init env) = SetNoop /\
  calls (log (run ops (after_init env))) = calls (log (after_init env)).
Proof.
  intros Hnot. all_kinds env;
    try (exfalso; apply (Hnot st0); exact Hready).
  rewrite Hafter. split; [assumption|].
  rewrite noop_bindings_run by assumption. reflexivity.
Qed.

Lemma unsettled_run_persists_nothing_witness :
  calls (log (run [SetItem "a" (VStr "1"); Clear] (after_init env_cursor_error))) = [].
Proof.
  destruct (unsettled_run_persists_nothing env_cursor_error
              [SetItem "a" (VStr "1"); Clear]) as [_ H].
  - intros st. discriminate.
  - rewrite H. reflexivity.
Defined.


(** X11. The tier a resolved run ends in, read off the environment:
    [localStorage] iff it exists and accepts the test write; IndexedDB iff
    that fails and the database opens, has its object store and the cursor
    runs to its end; a bridge iff both fail before any promise is left
    unsettled and a candidate object has a callable [getItem]; memory iff
    no candidate has. *)
Theorem tier_taken (env : environment) :
  ((exists st, ready env = Fulfilled st /\ backend st = "localStorage") <->
   exists ls, window_localStorage env = Some ls /\ quota_exceeded ls = false) /\
  ((exists st, ready env = Fulfilled st /\ backend st = "indexedDB") <->
   sync_unavailable env /\
   exists db, window_indexedDB env = OpenSuccess db /\ has_kv db = true /\
              cursor db = CursorEnd) /\
  ((exists st name, ready env = Fulfilled st /\ backend st = "android:" +:+ name) <->
   sync_unavailable env /\ async_unavailable env /\
   exists name, In name candidates /\ usable_bridge env name) /\
  ((exists st, ready env = Fulfilled st /\ backend st = "memory") <->
   sync_unavailable env /\ async_unavailable env /\
   forall name, In name candidates -> ~ usable_bridge env name).
Proof.
  split; [|split; [|split]]; split.
  - intros (st & Hr & Htag). init_kinds env Hr;
      try (rewrite Hb in Htag; discriminate). eauto.
  - intros (ls & Hls' & Hq'). all_kinds env; clash. exists st0. auto.
  - intros (st & Hr & Htag). init_kinds env Hr;
      try (rewrite Hb in Htag; discriminate). eauto.
  - intros (Hsu' & db' & Hdb' & Hkv' & Hcur'). all_kinds env; clash.
    all: try (exists st0; auto).
  - intros (st & name & Hr & Htag). init_kinds env Hr;
      try (rewrite Hb in Htag; discriminate).
    split; [assumption|]. split; [assumption|].
    exists name0. split; [rewrite Hcand; apply in_elt|]. exists api, get. auto.
  - intros (Hsu' & Hau' & name & Hin & Hus). all_kinds env.
    + clash.
    + clear Hsu'. clash.
    + clear Hsu'. clash.
    + exists st0, name0. auto.
    + exfalso. apply (Hnone name Hin Hus).
  - intros (st & Hr & Htag). init_kinds env Hr;
      try (rewrite Hb in Htag; discriminate). auto.
  - intros (Hsu' & Hau' & Hno). all_kinds env.
    + clash.
    + clear Hsu'. clash.
    + clear Hsu'. clash.
    + exfalso. apply (Hno name0).
      * rewrite Hcand. apply in_elt.
      * exists api, get. auto.
    + exists st0. auto.
Qed.

Lemma tier_taken_witness :
  (exists st, ready env_sync_ab = Fulfilled st /\ backend st = "localStorage") /\
  (exists st, ready env_async_ab = Fulfilled st /\ backend st = "indexedDB") /\
  (exists st, ready env_bare = Fulfilled st /\ backend st = "memory").
Proof.
  split; [|split].
  - apply (proj1 (tier_taken env_sync_ab)). eexists. split; reflexivity.
  - apply (proj1 (proj2 (tier_taken env_async_ab))).
    split; [left; reflexivity|]. eexists. repeat split.
  - apply (proj2 (proj2 (proj2 (tier_taken env_bare)))).
    split; [left; reflexivity|]. split; [left; reflexivity|].
    intros name _ (api & get & Hw & _). discriminate.
Defined.



(** X13. Among the bridge names the first usable one wins: when readiness
    resolved with [backend = 'android:' + name], [name] has a callable
    [getItem] and no candidate listed before it has. *)
Theorem first_usable_bridge_wins (env : environment) (st : storage) (name : string) :
  ready env = Fulfilled st -> backend st = "android:" +:+ name ->
  usable_bridge env name /\
  exists pre post,
    candidates = pre ++ name :: post /\
    forall n, In n pre -> ~ usable_bridge env n.
Proof.
  intros Hready Htag. init_kinds env Hready;
    try (rewrite Hb in Htag; discriminate).
  rewrite Hb in Htag.
  assert (name0 = name) as -> by (cbv in Htag; congruence).
  split; [exists api, get; auto|]. exists pre, post. auto.
Qed.

Lemma first_usable_bridge_wins_witness :
  backend (after_init env_two_bridges) = "android:AndroidBridge" /\
  usable_bridge env_two_bridges "AndroidBridge" /\
  ~ usable_bridge env_two_bridges "AndroidStorage".
Proof.
  destruct (first_usable_bridge_wins env_two_bridges (after_init env_two_bridges)
              "AndroidBridge" eq_refl eq_refl) as (Hus & pre & post & Hcand & Hpre).
  split; [reflexivity|]. split; [exact Hus|].
  apply Hpre.
  destruct pre as [|a pre]; [discriminate|].
  injection Hcand as <- _. left. reflexivity.
Defined.

(** ** What the bulk loaders leave out and what breaks them *)

Section LoaderMore.

Implicit Types (c : object) (k : string) (v : value).

(** An assignment never removes an own property. *)
Lemma put_keeps_own c k v q :
  is_Some (own c !! q) -> is_Some (own (put c k v) !! q).
Proof.
  intros Hq. unfold put.
  destruct (own c !! k) eqn:Hk; simpl.
  - rewrite lookup_insert. destruct (decide (k = q)); [eexists; reflexivity|exact Hq].
  - destruct (proto c).
    + destruct (String.eqb k "__proto__").
      * destruct v; exact Hq.
      * simpl. rewrite lookup_insert.
        destruct (decide (k = q)); [eexists; reflexivity|exact Hq].
    + simpl. rewrite lookup_insert.
      destruct (decide (k = q)); [eexists; reflexivity|exact Hq].
Qed.

Lemma load_localStorage_shadow ls n i c :
  i + n = length (items ls) ->
  is_Some (own c !! "hasOwnProperty") \/
  (exists j s, i <= j /\ items ls !! j = Some ("hasOwnProperty", s)) ->
  is_Some (own (load_localStorage ls n i c) !! "hasOwnProperty").
Proof.
  revert i c. induction n as [|n IH]; intros i c Hlen Hsrc.
  - unfold load_localStorage. destruct Hsrc as [Hc|(j & s & Hij & Hj)]; [exact Hc|].
    apply lookup_lt_Some in Hj. lia.
  - destruct (lookup_lt_is_Some_2 (items ls) i) as [[ki si] Hi]; [lia|].
    unfold load_localStorage; fold load_localStorage.
    unfold ls_key. rewrite Hi.
    apply IH; [lia|].
    destruct Hsrc as [Hc|(j & s & Hij & Hj)].
    + left. destruct (truthy_string ki); [apply put_keeps_own|]; exact Hc.
    + destruct (decide (j = i)) as [->|Hne].
      * left. rewrite Hi in Hj. injection Hj as -> ->. simpl.
        rewrite put_shadows. eexists. reflexivity.
      * right. exists j, s. split; [lia|exact Hj].
Qed.

Lemma load_cursor_shadow (recs : list (string * value)) c :
  is_Some (own c !! "hasOwnProperty") \/ (exists v, ("hasOwnProperty", v) ∈ recs) ->
  is_Some (own (load_cursor recs c) !! "hasOwnProperty").
Proof.
  unfold load_cursor. revert c. induction recs as [|[k0 v0] r IH]; intros c Hsrc; simpl.
  - destruct Hsrc as [Hc|[v Hv]]; [exact Hc|inversion Hv].
  - apply IH. destruct Hsrc as [Hc|[v Hv]].
    + left. apply put_keeps_own. exact Hc.
    + apply elem_of_cons in Hv as [Heq|Hv].
      * left. injection Heq as <- <-. rewrite put_shadows. eexists. reflexivity.
      * right. exists v. exact Hv.
Qed.

End LoaderMore.

#[local] Ltac cache_kinds env Hready :=
  apply ready_fulfilled in Hready;
  destruct (init_cases env) as
    [(?ls0 & ?ls1 & ?st0 & Hi & Hs & Hls & Hset & Hb & Hc & Hp)
    |[(?db0 & ?st0 & Hi & Hs & Ha & Hdb & Hb & Hc & Hp)
    |[(?p & ?st0 & Hi & Hsettle & Hs & Ha & Hp)
    |[(?name0 & ?api & ?get & ?st0 & Hi & Hs & Ha & Hh & Hin & Hw & Hg & Hb & Hc & Hr & Hp)
    |(?st0 & Hi & Hs & Ha & Hh & Hb & Hc & Hp)]]]];
  rewrite Hi in Hready;
  [ injection Hready as ->
  | injection Hready as ->
  | exfalso; injection Hready as -> _;
    destruct Hsettle as [Hp0|[? Hp0]]; discriminate
  | injection Hready as ->
  | injection Hready as -> ].

(** X14. The bulk load adds nothing of its own: after a run through the
    synchronous store, a key that [localStorage] does not hold reads
    [null], and so does the probe's test key even when [localStorage] held
    an entry under it; after a run through the asynchronous store, a key
    without a record reads [null].  (Stores with unique keys, none of them
    ["hasOwnProperty"] or ["__proto__"].) *)
Theorem bulk_load_adds_nothing (env : environment) (st : storage) (k : string) :
  ready env = Fulfilled st ->
  (forall ls,
     backend st = "localStorage" -> window_localStorage env = Some ls ->
     NoDup ((items ls).*1) -> Forall plain_key ((items ls).*1) ->
     k ∉ (items ls).*1 \/ k = testKey ->
     getItem st k = Normal VNull) /\
  (forall db,
     backend st = "indexedDB" -> window_indexedDB env = OpenSuccess db ->
     NoDup ((records db).*1) -> Forall plain_key ((records db).*1) ->
     k ∉ (records db).*1 ->
     getItem st k = Normal VNull).
Proof.
  intros Hready. cache_kinds env Hready.
  - split; [|intros db Hb'; rewrite Hb in Hb'; discriminate].
    intros ls _ Hls' Hnd Hpl Hk.
    rewrite Hls in Hls'. injection Hls' as ->.
    set (ls2 := ls_removeItem ls1 testKey) in *.
    assert (Hitems : items ls2 = assoc_remove testKey (items ls)).
    { unfold ls_setItem in Hset. destruct (quota_exceeded ls); [discriminate|].
      injection Hset as <-. unfold ls2, ls_removeItem. simpl. apply assoc_remove_set. }
    assert (Hnd2 : NoDup ((items ls2).*1)).
    { rewrite Hitems, assoc_remove_keys. apply NoDup_List_filter. assumption. }
    assert (Hpl2 : Forall plain_key ((items ls2).*1)).
    { rewrite Hitems, assoc_remove_keys. apply Forall_List_filter. assumption. }
    destruct (load_localStorage_spec ls2 Hnd2 Hpl2 (ls_length ls2) 0 empty_object)
      as (Hint & _ & Hout); [reflexivity|apply intact_empty|].
    rewrite <- Hc in Hint, Hout.
    apply getItem_absent; [exact Hint|].
    rewrite Hout; [apply lookup_empty|].
    intros j s _ Hj.
    apply list_elem_of_lookup_2 in Hj. rewrite Hitems in Hj.
    apply elem_of_assoc_remove in Hj as [Hj Hne].
    destruct Hk as [Hk|Hk]; [|contradiction].
    apply Hk. apply list_elem_of_fmap. exists (k, s). split; [reflexivity|exact Hj].
  - split; [intros ls Hb'; rewrite Hb in Hb'; discriminate|].
    intros db _ Hdb' Hnd Hpl Hk.
    rewrite Hdb in Hdb'. injection Hdb' as ->.
    destruct (load_cursor_spec (records db) empty_object Hnd Hpl intact_empty)
      as (Hint & _ & Hout).
    rewrite <- Hc in Hint, Hout.
    apply getItem_absent; [exact Hint|]. rewrite (Hout k Hk). apply lookup_empty.
  - split; intros ? Hb'; rewrite Hb in Hb'; discriminate.
  - split; intros ? Hb'; rewrite Hb in Hb'; discriminate.
Qed.

Lemma bulk_load_adds_nothing_witness :
  getItem (after_init env_sync_leftover) "__mig_test__" = Normal VNull /\
  getItem (after_init env_async_ab) "c" = Normal VNull.
Proof.
  split.
  - apply (proj1 (bulk_load_adds_nothing env_sync_leftover (after_init env_sync_leftover)
                    "__mig_test__" eq_refl)
                 (mkLS [("__mig_test__", "1"); ("a", "1")] false)); try reflexivity.
    + simpl. compute_done.
    + repeat constructor; discriminate.
    + right. reflexivity.
  - apply (proj2 (bulk_load_adds_nothing env_async_ab (after_init env_async_ab) "c" eq_refl)
                 (mkDB true [("a", VStr "1"); ("b", VStr "2")] CursorEnd)); try reflexivity.
    + simpl. compute_done.
    + repeat constructor; discriminate.
    + simpl. compute_done.
Defined.

(** X15. One stored entry named ["hasOwnProperty"] disables the wrapper:
    after a run through the synchronous or the asynchronous store that
    holds such an entry, [getItem] throws a [TypeError] for every key, and
    the application's [sGet], which catches it, reads [null] for every
    key, the stored ones included. *)
Theorem stored_hasOwnProperty_disables_reads (env : environment) (st : storage)
    (k : string) :
  ready env = Fulfilled st ->
  (forall ls s,
     backend st = "localStorage" -> window_localStorage env = Some ls ->
     ("hasOwnProperty", s) ∈ items ls ->
     getItem st k = Throw TypeError /\ sGet st k = VNull) /\
  (forall db v,
     backend st = "indexedDB" -> window_indexedDB env = OpenSuccess db ->
     ("hasOwnProperty", v) ∈ records db ->
     getItem st k = Throw TypeError /\ sGet st k = VNull).
Proof.
  intros Hready.
  assert (Hthrow : forall s0 : storage,
            is_Some (own (_cache s0) !! "hasOwnProperty") ->
            getItem s0 k = Throw TypeError /\ sGet s0 k = VNull).
  { intros s0 [x Hx]. unfold sGet. rewrite (getItem_shadowed s0 k x Hx). auto. }
  cache_kinds env Hready.
  - split; [|intros db v Hb'; rewrite Hb in Hb'; discriminate].
    intros ls s _ Hls' Hin.
    rewrite Hls in Hls'. injection Hls' as ->.
    apply Hthrow. rewrite Hc.
    apply load_localStorage_shadow; [reflexivity|]. right.
    assert (Hin2 : ("hasOwnProperty", s) ∈ items (ls_removeItem ls1 testKey)).
    { unfold ls_setItem in Hset. destruct (quota_exceeded ls); [discriminate|].
      injection Hset as <-. unfold ls_removeItem. simpl. rewrite assoc_remove_set.
      apply elem_of_assoc_remove. split; [exact Hin|discriminate]. }
    apply list_elem_of_lookup_1 in Hin2 as [j Hj]. exists j, s. split; [lia|exact Hj].
  - split; [intros ls s Hb'; rewrite Hb in Hb'; discriminate|].
    intros db v _ Hdb' Hin.
    rewrite Hdb in Hdb'. injection Hdb' as ->.
    apply Hthrow. rewrite Hc. apply load_cursor_shadow. right. exists v. exact Hin.
  - split; intros ? ? Hb'; rewrite Hb in Hb'; discriminate.
  - split; intros ? ? Hb'; rewrite Hb in Hb'; discriminate.
Qed.

Lemma stored_hasOwnProperty_disables_reads_witness :
  let env := mkEnv (Some (mkLS [("migstar_user", "{}"); ("hasOwnProperty", "x")] false))
                   NoIndexedDB no_globals None no_faults in
  sGet (after_init env) "migstar_user" = VNull.
Proof.
  intros env.
  apply (proj1 (stored_hasOwnProperty_disables_reads env (after_init env) "migstar_user"
                  eq_refl)
               (mkLS [("migstar_user", "{}"); ("hasOwnProperty", "x")] false) "x");
    try reflexivity.
  compute_done.
Defined.

(** ** Cookies that seed the memory fallback *)

Section CookieFacts.

Lemma append_cons (a : ascii) (s t : string) : String a s +:+ t = String a (s +:+ t).
Proof. reflexivity. Qed.

Lemma append_empty_r (s : string) : s +:+ "" = s.
Proof.
  induction s as [|a s IH]; [reflexivity|]. rewrite append_cons, IH. reflexivity.
Qed.

Lemma append_snoc (cur : string) (a : ascii) (s : string) :
  (cur +:+ String a EmptyString) +:+ s = cur +:+ String a s.
Proof.
  induction cur as [|b cur IH]; [reflexivity|]. rewrite !append_cons, IH. reflexivity.
Qed.

Lemma avoids_append (a : ascii) (s t : string) :
  avoids a (s +:+ t) = avoids a s && avoids a t.
Proof.
  induction s as [|b s IH]; [reflexivity|].
  rewrite append_cons. simpl. rewrite IH. apply andb_assoc.
Qed.

Lemma prefix_empty (s : string) : String.prefix "" s = true.
Proof. destruct s; reflexivity. Qed.

Lemma prefix_other (a b : ascii) (sep' s : string) :
  Ascii.eqb b a = false -> String.prefix (String a sep') (String b s) = false.
Proof.
  intros H. simpl. destruct (ascii_dec a b) as [->|]; [|reflexivity].
  rewrite Ascii.eqb_refl in H. discriminate.
Qed.

(** A string without the first character of the separator is one piece. *)
Lemma split_go_avoids (a : ascii) (sep' s cur : string) :
  avoids a s = true -> split_go (String a sep') s 0 cur = [cur +:+ s].
Proof.
  revert cur. induction s as [|b s IH]; intros cur H.
  - simpl. rewrite append_empty_r. reflexivity.
  - simpl in H. apply andb_true_iff in H as [Hb Hs]. apply negb_true_iff in Hb.
    unfold split_go; fold split_go. rewrite (prefix_other a b sep' s Hb).
    rewrite IH by assumption. rewrite append_snoc. reflexivity.
Qed.

Lemma split_go_semicolon (s rest cur : string) :
  avoids ";" s = true ->
  split_go "; " (s +:+ "; " +:+ rest) 0 cur = (cur +:+ s) :: split_go "; " rest 0 "".
Proof.
  revert cur. induction s as [|b s IH]; intros cur H.
  - change ("" +:+ "; " +:+ rest) with (String ";" (String " " rest)).
    simpl. rewrite prefix_empty, append_empty_r. reflexivity.
  - simpl in H. apply andb_true_iff in H as [Hb Hs]. apply negb_true_iff in Hb.
    change (String b s +:+ "; " +:+ rest) with (String b (s +:+ "; " +:+ rest)).
    unfold split_go; fold split_go. rewrite (prefix_other ";" b " " _ Hb).
    rewrite IH by assumption. rewrite append_snoc. reflexivity.
Qed.

Lemma split_pair (k v : string) :
  avoids "=" k = true -> avoids "=" v = true ->
  split (k +:+ "=" +:+ v) "=" = [k; v].
Proof.
  intros Hk Hv. unfold split.
  assert (H : forall cur, split_go "=" (k +:+ "=" +:+ v) 0 cur = [cur +:+ k; v]).
  { induction k as [|b k IH]; intros cur.
    - change ("" +:+ "=" +:+ v) with (String "=" v).
      simpl. rewrite prefix_empty, append_empty_r.
      rewrite (split_go_avoids "=" "" v "" Hv). reflexivity.
    - simpl in Hk. apply andb_true_iff in Hk as [Hb Hk]. apply negb_true_iff in Hb.
      change (String b k +:+ "=" +:+ v) with (String b (k +:+ "=" +:+ v)).
      unfold split_go; fold split_go. rewrite (prefix_other "=" b "" _ Hb).
      rewrite (IH Hk). rewrite append_snoc. reflexivity. }
  apply H.
Qed.

Lemma decode_plain (s : string) :
  avoids "%" s = true -> decodeURIComponent s = Normal s.
Proof.
  intros H. unfold decodeURIComponent.
  assert (Hgo : decode_go Plain s = Some s).
  { induction s as [|a s IH]; [reflexivity|].
    simpl in H. apply andb_true_iff in H as [Ha Hs]. apply negb_true_iff in Ha.
    simpl. rewrite Ha, (IH Hs). reflexivity. }
  rewrite Hgo. reflexivity.
Qed.

Lemma simple_parts (s : string) :
  simple s = true ->
  avoids ";" s = true /\ avoids "=" s = true /\ avoids "%" s = true.
Proof.
  unfold simple. intros H.
  apply andb_true_iff in H as [H H3]. apply andb_true_iff in H as [H1 H2]. auto.
Qed.

Lemma cookie_pair_no_semicolon (p : string * string) :
  simple_pair p -> avoids ";" (cookie_pair p) = true.
Proof.
  intros [Hk Hv]. apply simple_parts in Hk as (Hk & _). apply simple_parts in Hv as (Hv & _).
  unfold cookie_pair. rewrite !avoids_append, Hk, Hv. reflexivity.
Qed.

Lemma split_cookie_pairs (ps : list (string * string)) :
  Forall simple_pair ps -> ps <> [] ->
  split (cookie_string ps) "; " = List.map cookie_pair ps.
Proof.
  unfold split. induction 1 as [|p ps Hp Hps IH]; intros Hne; [contradiction|].
  destruct ps as [|q r].
  - simpl. rewrite (split_go_avoids ";" " " _ "" (cookie_pair_no_semicolon p Hp)).
    reflexivity.
  - change (cookie_string (p :: q :: r))
      with (cookie_pair p +:+ "; " +:+ cookie_string (q :: r)).
    rewrite split_go_semicolon by (apply cookie_pair_no_semicolon; exact Hp).
    rewrite IH by discriminate. reflexivity.
Qed.

Lemma truthy_cookie_string (p : string * string) (ps : list (string * string)) :
  truthy_string (cookie_string (p :: ps)) = true.
Proof.
  destruct p as [k v]. destruct ps as [|q r]; simpl; unfold cookie_pair; simpl;
    destruct k; reflexivity.
Qed.

(** A cookie string of simple pairs is parsed back into those pairs. *)
Lemma parse_cookie_string (ps : list (string * string)) :
  Forall simple_pair ps ->
  parse_cookies (cookie_string ps) = List.map (fun p => [fst p; snd p]) ps.
Proof.
  intros Hps. destruct ps as [|p ps]; [reflexivity|].
  unfold parse_cookies. rewrite truthy_cookie_string.
  rewrite split_cookie_pairs by (assumption || discriminate).
  rewrite List.map_map. apply List.map_ext_in.
  intros [k v] Hin. apply list_elem_of_In in Hin.
  rewrite Forall_forall in Hps. destruct (Hps _ Hin) as [Hk Hv].
  apply simple_parts in Hk as (_ & Hk & _). apply simple_parts in Hv as (_ & Hv & _).
  apply split_pair; assumption.
Qed.

Lemma load_cookie_simple (c : object) (p : string * string) :
  simple_pair p -> load_cookie c [fst p; snd p] = put c (fst p) (VStr (snd p)).
Proof.
  intros [Hk Hv].
  apply simple_parts in Hk as (_ & _ & Hk). apply simple_parts in Hv as (_ & _ & Hv).
  unfold load_cookie. simpl. rewrite (decode_plain _ Hk), (decode_plain _ Hv). reflexivity.
Qed.

Lemma load_cookie_string (ps : list (string * string)) (c : object) :
  Forall simple_pair ps ->
  fold_left load_cookie (parse_cookies (cookie_string ps)) c =
  load_cursor (List.map (fun p => (fst p, VStr (snd p))) ps) c.
Proof.
  intros Hps. rewrite parse_cookie_string by assumption.
  unfold load_cursor. revert c. induction Hps as [|p ps Hp Hps IH]; intros c; simpl.
  - reflexivity.
  - rewrite load_cookie_simple by assumption. apply IH.
Qed.

End CookieFacts.

(** X16. Cookies seed the memory fallback faithfully when they are simple:
    if [document.cookie] is a list of [name=value] pairs joined by ["; "],
    names and values free of [;], [=] and [%], names distinct and none of
    them ["hasOwnProperty"] or ["__proto__"], then after readiness resolved
    with [backend = 'memory'] every cookie name reads as its value and
    every other key reads [null]. *)
Theorem cookies_seed_fallback (env : environment) (st : storage)
    (ps : list (string * string)) (k : string) :
  ready env = Fulfilled st -> backend st = "memory" ->
  document_cookie env = Some (cookie_string ps) ->
  Forall simple_pair ps -> NoDup (ps.*1) -> Forall plain_key (ps.*1) ->
  (forall v, (k, v) ∈ ps -> getItem st k = Normal (VStr v)) /\
  (k ∉ ps.*1 -> getItem st k = Normal VNull).
Proof.
  intros Hready Htag Hcookie Hsimple Hnd Hpl.
  cache_kinds env Hready; try (rewrite Hb in Htag; discriminate).
  set (recs := List.map (fun p : string * string => (fst p, VStr (snd p))) ps).
  assert (Hkeys : recs.*1 = ps.*1).
  { unfold recs. clear. induction ps as [|[a b] r IH]; simpl; [reflexivity|].
    f_equal. exact IH. }
  assert (Hcache : _cache st = load_cursor recs empty_object).
  { rewrite Hc. unfold load_cookies. rewrite Hcookie.
    apply load_cookie_string. assumption. }
  destruct (load_cursor_spec recs empty_object) as (Hint & Hin' & Hout);
    [rewrite Hkeys; assumption|rewrite Hkeys; assumption|apply intact_empty|].
  rewrite <- Hcache in Hint, Hin', Hout.
  split.
  - intros v Hv. rewrite getItem_intact by assumption. unfold cached.
    rewrite (Hin' k (VStr v)); [reflexivity|].
    unfold recs. apply list_elem_of_In, in_map_iff. exists (k, v).
    split; [reflexivity|apply list_elem_of_In; exact Hv].
  - intros Hk. apply getItem_absent; [assumption|].
    rewrite Hout by (rewrite Hkeys; exact Hk). apply lookup_empty.
Qed.

Lemma cookies_seed_fallback_witness :
  getItem (after_init env_two_cookies) "b" = Normal (VStr "2") /\
  getItem (after_init env_two_cookies) "c" = Normal VNull.
Proof.
  destruct (cookies_seed_fallback env_two_cookies (after_init env_two_cookies)
              [("a", "1"); ("b", "2")] "b") as [H1 _]; try reflexivity.
  { repeat constructor. }
  { simpl. compute_done. }
  { repeat constructor; discriminate. }
  destruct (cookies_seed_fallback env_two_cookies (after_init env_two_cookies)
              [("a", "1"); ("b", "2")] "c") as [_ H2]; try reflexivity.
  { repeat constructor. }
  { simpl. compute_done. }
  { repeat constructor; discriminate. }
  split; [apply H1; compute_done|apply H2; simpl; compute_done].
Defined.

(** ** Across a reload *)

Section Reload.

Implicit Types (l : list (string * string)) (k s : string).

Lemma assoc_get_None l k : assoc_get k l = None <-> k ∉ l.*1.
Proof.
  induction l as [|[k' s'] r IH]; simpl.
  - split; [intros _ H; inversion H|reflexivity].
  - rewrite not_elem_of_cons. destruct (String.eqb_spec k k') as [->|Hne].
    + split; [discriminate|intros [H _]; contradiction].
    + rewrite IH. tauto.
Qed.

Lemma assoc_get_Some l k s : assoc_get k l = Some s -> (k, s) ∈ l.
Proof.
  induction l as [|[k' s'] r IH]; simpl; [discriminate|].
  destruct (String.eqb_spec k k') as [->|Hne].
  - intros H. injection H as ->. left.
  - intros H. right. apply IH. exact H.
Qed.

Lemma assoc_get_set l k s k' :
  assoc_get k' (assoc_set k s l) = if String.eqb k k' then Some s else assoc_get k' l.
Proof.
  induction l as [|[q t] r IH]; simpl.
  - rewrite (String.eqb_sym k' k). destruct (String.eqb k k'); reflexivity.
  - destruct (String.eqb_spec k q) as [->|Hkq]; simpl.
    + rewrite (String.eqb_sym k' q). destruct (String.eqb q k'); reflexivity.
    + rewrite IH. destruct (String.eqb_spec k' q) as [->|Hq]; [|reflexivity].
      apply String.eqb_neq in Hkq. rewrite Hkq. reflexivity.
Qed.

Lemma assoc_get_remove l k k' :
  assoc_get k' (assoc_remove k l) = if String.eqb k k' then None else assoc_get k' l.
Proof.
  unfold assoc_remove. induction l as [|[q t] r IH]; simpl.
  - destruct (String.eqb k k'); reflexivity.
  - destruct (String.eqb_spec k q) as [->|Hkq]; simpl.
    + rewrite IH. rewrite (String.eqb_sym k' q). destruct (String.eqb q k'); reflexivity.
    + rewrite IH. destruct (String.eqb_spec k' q) as [->|Hq]; [|reflexivity].
      apply String.eqb_neq in Hkq. rewrite Hkq. reflexivity.
Qed.

Lemma elem_of_assoc_set_keys l k s x :
  x ∈ (assoc_set k s l).*1 <-> x = k \/ x ∈ l.*1.
Proof.
  induction l as [|[q t] r IH]; simpl.
  - rewrite list_elem_of_singleton. split; [auto|intros [H|H]; [exact H|inversion H]].
  - destruct (String.eqb_spec k q) as [->|Hkq]; simpl.
    + rewrite !elem_of_cons. tauto.
    + rewrite !elem_of_cons, IH. tauto.
Qed.

Lemma NoDup_assoc_set l k s : NoDup (l.*1) -> NoDup ((assoc_set k s l).*1).
Proof.
  induction l as [|[q t] r IH]; simpl; intros Hnd.
  - apply NoDup_singleton.
  - apply NoDup_cons in Hnd as [Hq Hr].
    destruct (String.eqb_spec k q) as [->|Hkq]; simpl.
    + apply NoDup_cons. split; assumption.
    + apply NoDup_cons. split; [|apply IH; assumption].
      rewrite elem_of_assoc_set_keys. intros [H|H]; [congruence|contradiction].
Qed.

Lemma not_elem_of_filter_keep (t : string) (ks : list string) :
  t ∉ ks -> List.filter (fun k => negb (String.eqb t k)) ks = ks.
Proof.
  induction ks as [|q r IH]; simpl; [reflexivity|].
  intros H. apply not_elem_of_cons in H as [Hne H].
  apply String.eqb_neq in Hne. rewrite Hne. simpl. rewrite IH by assumption. reflexivity.
Qed.

(** The loop never stores under the empty key. *)
Lemma load_localStorage_empty_key ls :
  Forall plain_key ((items ls).*1) ->
  forall n i (c : object),
    own (load_localStorage ls n i c) !! "" = own c !! "".
Proof.
  intros Hpl. induction n as [|n IH]; intros i c; [reflexivity|].
  unfold load_localStorage; fold load_localStorage. rewrite IH.
  unfold ls_key. destruct (items ls !! i) as [[ki si]|] eqn:Hi; [|reflexivity].
  destruct ki as [|a ki]; [reflexivity|]. simpl.
  assert (Hp : plain_key (String a ki)).
  { eapply Forall_forall; [exact Hpl|]. apply list_elem_of_fmap.
    exists (String a ki, si). split; [reflexivity|].
    eapply list_elem_of_lookup_2. exact Hi. }
  destruct Hp as [_ Hp]. rewrite put_plain_lookup by assumption.
  destruct (decide _); [discriminate|reflexivity].
Qed.

(** The cache the loop builds from a well-formed store. *)
Lemma load_localStorage_lookup ls :
  NoDup ((items ls).*1) -> Forall plain_key ((items ls).*1) ->
  let c := load_localStorage ls (ls_length ls) 0 empty_object in
  intact c /\
  forall k, own c !! k =
            (if String.eqb k "" then None else VStr <$> assoc_get k (items ls)).
Proof.
  intros Hnd Hpl c.
  destruct (load_localStorage_spec ls Hnd Hpl (ls_length ls) 0 empty_object)
    as (Hint & Hin & Hout); [reflexivity|apply intact_empty|].
  split; [exact Hint|]. intros k.
  destruct (String.eqb_spec k "") as [->|Hne].
  - unfold c. rewrite load_localStorage_empty_key by assumption. apply lookup_empty.
  - destruct (assoc_get k (items ls)) as [s|] eqn:Hget; simpl.
    + apply assoc_get_Some, list_elem_of_lookup_1 in Hget as [j Hj].
      apply (Hin j k s); [lia|assumption|assumption].
    + apply assoc_get_None in Hget. unfold c. rewrite Hout; [apply lookup_empty|].
      intros j s _ Hj. apply Hget. apply list_elem_of_fmap. exists (k, s).
      split; [reflexivity|]. eapply list_elem_of_lookup_2. exact Hj.
Qed.

(** The probe followed by the load establishes [mirrors]. *)
Lemma mirrors_after_probe ls ls1 :
  ls_setItem ls testKey "1" = Normal ls1 ->
  NoDup ((items ls).*1) -> Forall plain_key ((items ls).*1) ->
  let ls2 := ls_removeItem ls1 testKey in
  mirrors ls2 (load_localStorage ls2 (ls_length ls2) 0 empty_object).
Proof.
  intros Hset Hnd Hpl ls2.
  assert (Hq : quota_exceeded ls = false).
  { unfold ls_setItem in Hset. destruct (quota_exceeded ls); [discriminate|reflexivity]. }
  assert (Hitems : items ls2 = assoc_remove testKey (items ls)).
  { unfold ls_setItem in Hset. rewrite Hq in Hset.
    injection Hset as <-. unfold ls2, ls_removeItem. simpl. apply assoc_remove_set. }
  assert (Hq2 : quota_exceeded ls2 = false).
  { unfold ls_setItem in Hset. rewrite Hq in Hset. injection Hset as <-. reflexivity. }
  assert (Hnd2 : NoDup ((items ls2).*1)).
  { rewrite Hitems, assoc_remove_keys. apply NoDup_List_filter. assumption. }
  assert (Hpl2 : Forall plain_key ((items ls2).*1)).
  { rewrite Hitems, assoc_remove_keys. apply Forall_List_filter. assumption. }
  destruct (load_localStorage_lookup ls2 Hnd2 Hpl2) as [Hint Hlook].
  repeat (split; [assumption|]). split; [|split; assumption].
  rewrite Hitems, assoc_remove_keys, list_elem_of_In, filter_In.
  intros [_ H]. rewrite String.eqb_refl in H. discriminate.
Qed.

(** Each durable facade call keeps cache and store in step, provided the
    native call does not throw. *)
Lemma mirrors_step thr ls (st : storage) o :
  (forall c, thr c = false) -> durable_op o ->
  mirrors ls (_cache st) ->
  mirrors (ls_apply thr ls (ls_call o)) (_cache (step st o)).
Proof.
  intros Hthr Hop (Hq & Hnd & Hpl & Ht & Hint & Hlook).
  unfold ls_apply. rewrite Hthr.
  destruct o as [k v|k|]; cbn [step ls_call].
  - destruct Hop as (Hpk & Hne & Hnt).
    unfold ls_setItem. rewrite Hq. rewrite cache_setItem.
    split; [reflexivity|]. split; [apply NoDup_assoc_set; assumption|]. split.
    { apply Forall_forall. intros x Hx. apply elem_of_assoc_set_keys in Hx as [->|Hx];
        [assumption|]. eapply Forall_forall in Hpl; eassumption. }
    split.
    { simpl. rewrite elem_of_assoc_set_keys. intros [H|H]; [congruence|contradiction]. }
    split; [apply put_plain_intact; assumption|].
    intros q. destruct Hpk as [_ Hp]. rewrite put_plain_lookup by assumption.
    simpl. rewrite assoc_get_set.
    destruct (decide (k = q)) as [->|Hkq].
    + rewrite String.eqb_refl. apply String.eqb_neq in Hne. rewrite Hne. reflexivity.
    + apply String.eqb_neq in Hkq. rewrite Hkq. apply Hlook.
  - rewrite cache_removeItem. unfold ls_removeItem, mirrors. cbn [items quota_exceeded].
    split; [assumption|].
    split; [rewrite assoc_remove_keys; apply NoDup_List_filter; assumption|].
    split; [rewrite assoc_remove_keys; apply Forall_List_filter; assumption|].
    split.
    { rewrite assoc_remove_keys, list_elem_of_In, filter_In, <- list_elem_of_In. tauto. }
    split; [apply delete_intact; assumption|].
    intros q. cbn [own delete_property]. rewrite lookup_delete, assoc_get_remove.
    destruct (decide (k = q)) as [->|Hkq].
    + rewrite String.eqb_refl. destruct (String.eqb q ""); reflexivity.
    + apply String.eqb_neq in Hkq. rewrite Hkq. apply Hlook.
  - rewrite cache_clear. simpl.
    split; [assumption|]. split; [constructor|]. split; [constructor|].
    split; [intros H; inversion H|]. split; [apply intact_empty|].
    intros q. simpl. rewrite lookup_empty. destruct (String.eqb q ""); reflexivity.
Qed.

Lemma mirrors_run thr ops ls (st : storage) :
  (forall c, thr c = false) -> Forall durable_op ops ->
  mirrors ls (_cache st) ->
  mirrors (ls_replay thr ls (List.map ls_call ops)) (_cache (run ops st)).
Proof.
  intros Hthr Hops. unfold ls_replay, run. revert ls st.
  induction Hops as [|o ops Ho Hops IH]; intros ls st Hm; simpl; [exact Hm|].
  apply IH. apply mirrors_step; assumption.
Qed.

End Reload.

(** X17. A session is durable through [localStorage].  Start from a
    well-formed store (unique keys, none of them colliding with the cache
    object) that accepts writes and whose calls do not throw; run any
    sequence of facade calls whose [setItem] keys are non-empty, not the
    test key and not colliding; let [localStorage] be what the native calls
    of that session, the probe's included, have made of it.  Then a new
    session started on that store reads, for every key, what the old
    session read at its end. *)
Theorem reload_round_trip (env1 env2 : environment) (ls : Storage)
    (ops : list op) (k : string) :
  window_localStorage env1 = Some ls -> quota_exceeded ls = false ->
  (forall c, native_throws env1 c = false) ->
  NoDup ((items ls).*1) -> Forall plain_key ((items ls).*1) ->
  Forall durable_op ops ->
  window_localStorage env2 =
    Some (ls_replay (native_throws env1) ls (calls (log (run ops (after_init env1))))) ->
  getItem (after_init env2) k = getItem (run ops (after_init env1)) k.
Proof.
  intros Hls1 Hq1 Hthr Hnd Hpl Hops Hls2.
  (* the first session *)
  destruct (init_cases env1) as
    [(lsa & ls1 & st1 & Hi1 & _ & Hlsa & Hset1 & _ & Hc1 & _)
    |[(? & ? & _ & Hs & _)|[(? & ? & _ & _ & Hs & _)
    |[(? & ? & ? & ? & _ & Hs & _)|(? & _ & Hs & _)]]]];
    try (rewrite (sync_probe_succeeds env1 ls Hls1 Hq1) in Hs; discriminate).
  rewrite Hls1 in Hlsa. injection Hlsa as <-.
  destruct (init_bindings env1) as
    [(lsb & stb & Hib & _ & _ & _ & Hps & Hpr & Hpc & Hcalls)
    |[(? & ? & _ & Hsu & _)|[(? & ? & _ & Hsu & _)
    |[(? & ? & ? & ? & ? & ? & _ & Hsu & _)|(? & _ & Hsu & _)]]]];
    try (exfalso; destruct Hsu as [Hsu|(? & Hsu & Hsq)]; congruence).
  rewrite Hi1 in Hib. injection Hib as <-.
  destruct (ready_init env1 _ _ Hi1) as [Hafter1 _]. rewrite Hafter1 in *.
  set (ls2 := ls_removeItem ls1 testKey) in *.
  assert (Hm1 : mirrors ls2 (_cache st1)).
  { rewrite Hc1. apply (mirrors_after_probe ls ls1); assumption. }
  assert (Hreplay : ls_replay (native_throws env1) ls (calls (log (run ops st1)))
                    = ls_replay (native_throws env1) ls2 (List.map ls_call ops)).
  { rewrite calls_run_sync by assumption. rewrite Hcalls.
    unfold ls_replay. rewrite fold_left_app. f_equal.
    simpl. unfold ls_apply. rewrite !Hthr, Hset1. reflexivity. }
  rewrite Hreplay in Hls2.
  pose proof (mirrors_run (native_throws env1) ops ls2 st1 Hthr Hops Hm1) as Hmf.
  set (lsf := ls_replay (native_throws env1) ls2 (List.map ls_call ops)) in *.
  destruct Hmf as (Hqf & Hndf & Hplf & Htf & Hintf & Hlookf).
  (* the second session *)
  destruct (init_cases env2) as
    [(lsc & ls1' & st2 & Hi2 & _ & Hlsc & Hset2 & _ & Hc2 & _)
    |[(? & ? & _ & Hs & _)|[(? & ? & _ & _ & Hs & _)
    |[(? & ? & ? & ? & _ & Hs & _)|(? & _ & Hs & _)]]]];
    try (rewrite (sync_probe_succeeds env2 lsf Hls2 Hqf) in Hs; discriminate).
  rewrite Hls2 in Hlsc. injection Hlsc as <-.
  destruct (ready_init env2 _ _ Hi2) as [Hafter2 _]. rewrite Hafter2.
  destruct (mirrors_after_probe lsf ls1' Hset2 Hndf Hplf)
    as (_ & _ & _ & _ & Hint2 & Hlook2).
  rewrite <- Hc2 in Hint2, Hlook2.
  assert (Hitems : items (ls_removeItem ls1' testKey) = assoc_remove testKey (items lsf)).
  { unfold ls_setItem in Hset2. rewrite Hqf in Hset2. injection Hset2 as <-.
    unfold ls_removeItem. simpl. apply assoc_remove_set. }
  assert (Hsame : assoc_get k (items (ls_removeItem ls1' testKey))
                  = assoc_get k (items lsf)).
  { rewrite Hitems, assoc_get_remove.
    destruct (String.eqb_spec testKey k) as [<-|_]; [|reflexivity].
    symmetry. apply assoc_get_None. exact Htf. }
  rewrite !getItem_intact by assumption. unfold cached.
  rewrite Hlook2, Hlookf, Hsame. reflexivity.
Qed.

Lemma reload_round_trip_witness :
  let ops := [SetItem "migstar_user" (VStr "{}"); RemoveItem "a"; SetItem "c" VNull] in
  let ls' := ls_replay no_faults (mkLS [("a", "1"); ("b", "2")] false)
               (calls (log (run ops (after_init env_sync_ab)))) in
  items ls' = [("b", "2"); ("migstar_user", "{}"); ("c", "null")] /\
  getItem (after_init (mkEnv (Some ls') NoIndexedDB no_globals None no_faults)) "c"
  = Normal (VStr "null").
Proof.
  intros ops ls'. split; [reflexivity|].
  rewrite (reload_round_trip env_sync_ab
             (mkEnv (Some ls') NoIndexedDB no_globals None no_faults)
             (mkLS [("a", "1"); ("b", "2")] false) ops "c"); try reflexivity.
  - simpl. compute_done.
  - repeat constructor; discriminate.
  - repeat constructor; discriminate.
Defined.

(** ** The application's helpers *)

Section AppFacts.

Implicit Types (st : storage) (k : string) (v : value).

Lemma sGet_intact st k : intact (_cache st) -> sGet st k = cached (_cache st) k.
Proof. intros Hi. unfold sGet. rewrite getItem_intact by assumption. reflexivity. Qed.

Lemma sSet_plain st k v k' :
  plain_key k -> intact (_cache st) ->
  intact (_cache (sSet k v st)) /\
  sGet (sSet k v st) k = VStr (String_ v) /\
  (k' <> k -> sGet (sSet k v st) k' = sGet st k').
Proof.
  intros Hk Hi. unfold sSet.
  assert (Hi' : intact (_cache (setItem k v st))).
  { rewrite cache_setItem. apply put_plain_intact; assumption. }
  split; [exact Hi'|].
  rewrite !sGet_intact by assumption. unfold cached.
  rewrite cache_setItem. destruct Hk as [_ Hp].
  rewrite !put_plain_lookup by assumption.
  split.
  - destruct (decide (k = k)); [reflexivity|contradiction].
  - intros Hne. destruct (decide (k = k')); [congruence|reflexivity].
Qed.

Lemma savers_plain key save :
  In (key, save) savers ->
  plain_key key /\ In key keysToTry /\ forall json st, save json st = sSet key (VStr json) st.
Proof.
  intros H. simpl in H.
  repeat (destruct H as [H|H];
          [injection H as <- <-;
           split; [split; discriminate|split; [simpl; tauto|reflexivity]]|]).
  contradiction.
Qed.

Lemma app_step_intact st w : intact (_cache st) -> intact (_cache (app_step st w)).
Proof.
  intros Hi. destruct w as [j|j|j|j|j|[|]]; simpl;
    unfold saveUser, saveTransactions, saveHistory, saveMissionPool, saveTodayMissions,
      sSet, sRemove;
    rewrite ?cache_setItem, ?cache_removeItem;
    repeat first [ apply put_plain_intact; [split; discriminate|]
                 | apply delete_intact ];
    assumption.
Qed.

End AppFacts.

(** X18. Each writer of the application and [sGet] round-trip on the
    writer's own key: on a working cache, after [saveUser],
    [saveMissionPool], [saveTransactions], [saveHistory] or the save of
    today's missions, [sGet] of that writer's key returns the JSON text
    just written, and [sGet] of every other key returns what it returned
    before.  The five keys are exactly the ones the bridge loader reads. *)
Theorem save_then_sGet (key : string) (save : string -> storage -> storage)
    (json : string) (st : storage) (k' : string) :
  In (key, save) savers -> intact (_cache st) ->
  In key keysToTry /\
  sGet (save json st) key = VStr json /\
  (k' <> key -> sGet (save json st) k' = sGet st k').
Proof.
  intros Hin Hi. destruct (savers_plain key save Hin) as (Hp & Hk & Heq).
  rewrite Heq. destruct (sSet_plain st key (VStr json) k' Hp Hi) as (_ & H1 & H2).
  auto.
Qed.

Lemma save_then_sGet_witness :
  sGet (saveHistory "[]" (saveUser "{}" (initial env_bare))) "migstar_history" = VStr "[]" /\
  sGet (saveHistory "[]" (saveUser "{}" (initial env_bare))) "migstar_user" = VStr "{}".
Proof.
  destruct (save_then_sGet "migstar_history" saveHistory "[]"
              (saveUser "{}" (initial env_bare)) "migstar_user") as (_ & H1 & H2).
  - simpl. tauto.
  - split; reflexivity.
  - split; [exact H1|]. rewrite H2; [reflexivity|discriminate].
Defined.

Lemma run_nil (st : storage) : run [] st = st.
Proof. reflexivity. Qed.

Lemma run_cons (o : op) (ops : list op) (st : storage) :
  run (o :: ops) st = run ops (step st o).
Proof. reflexivity. Qed.

Lemma step_RemoveItem (st : storage) (k : string) :
  step st (RemoveItem k) = sRemove k st.
Proof. reflexivity. Qed.

Lemma reset_unfolded (st : storage) :
  resetLocalStorage true st =
  (sRemove "migstar_todayMissions"
     (sRemove "migstar_history"
        (sRemove "migstar_transactions"
           (sRemove "migstar_missionPool" (sRemove "migstar_user" st)))), true).
Proof. reflexivity. Qed.

(** X19. A confirmed [resetLocalStorage()] removes the five application
    keys, which are the keys the bridge loader reads, in that order, and
    asks for a reload: on a working cache each of them then reads [null]
    through [sGet] and every other key reads as before.  A declined reset
    changes nothing and does not reload. *)
Theorem reset_forgets_app_keys (st : storage) (k : string) :
  intact (_cache st) ->
  resetLocalStorage true st = (run (List.map RemoveItem keysToTry) st, true) /\
  (In k keysToTry -> sGet (fst (resetLocalStorage true st)) k = VNull) /\
  (~ In k keysToTry -> sGet (fst (resetLocalStorage true st)) k = sGet st k) /\
  resetLocalStorage false st = (st, false).
Proof.
  intros Hi.
  assert (Heq : resetLocalStorage true st
                = (run (List.map RemoveItem keysToTry) st, true)).
  { rewrite reset_unfolded. unfold keysToTry. cbn [List.map].
    rewrite !run_cons, run_nil, !step_RemoveItem. reflexivity. }
  destruct (cache_first_plain_keys (List.map RemoveItem keysToTry) st k) as [Hi' Hg];
    [repeat constructor|exact Hi|].
  split; [exact Heq|]. split; [|split; [|reflexivity]].
  - intros Hk. rewrite Heq. cbn [fst].
    unfold sGet. rewrite Hg.
    unfold keysToTry in Hk |- *. cbn [List.map fold_left reflect].
    cbn [In] in Hk.
    repeat (destruct Hk as [<-|Hk];
            [rewrite String.eqb_refl;
             repeat match goal with
                    | |- context [if String.eqb ?a ?b then _ else _] =>
                        destruct (String.eqb a b)
                    end; reflexivity|]).
    contradiction.
  - intros Hk. rewrite Heq. cbn [fst].
    unfold sGet at 1. rewrite Hg. rewrite sGet_intact by assumption.
    unfold keysToTry in Hk |- *. cbn [List.map fold_left reflect].
    repeat match goal with
           | |- context [String.eqb ?a k] =>
               destruct (String.eqb_spec a k) as [<-|_];
               [exfalso; apply Hk; cbn [In]; tauto|]
           end.
    reflexivity.
Qed.

Lemma reset_forgets_app_keys_witness :
  let st := setItem "other" (VStr "x") (saveUser "{}" (initial env_bare)) in
  sGet (fst (resetLocalStorage true st)) "migstar_user" = VNull /\
  sGet (fst (resetLocalStorage true st)) "other" = VStr "x".
Proof.
  intros st.
  assert (Hi : intact (_cache st)) by (split; reflexivity).
  destruct (reset_forgets_app_keys st "migstar_user" Hi) as (_ & H1 & _).
  destruct (reset_forgets_app_keys st "other" Hi) as (_ & _ & H2 & _).
  split.
  - apply H1. simpl. tauto.
  - rewrite H2; [reflexivity|].
    simpl. intros [H|[H|[H|[H|[H|[]]]]]]; discriminate.
Defined.

(** X20. The application's own traffic never breaks the wrapper: after
    any sequence of its saves and resets on a working cache, [getItem]
    does not throw for any key, so that [sGet] returns what [getItem]
    returns and its [catch] branch is not taken. *)
Theorem app_traffic_never_throws (ws : list app_write) (st : storage) (k : string) :
  intact (_cache st) ->
  getItem (run_app ws st) k = Normal (sGet (run_app ws st) k).
Proof.
  intros Hi.
  assert (Hi' : intact (_cache (run_app ws st))).
  { unfold run_app. revert st Hi. induction ws as [|w ws IH]; intros st Hi; simpl.
    - exact Hi.
    - apply IH. apply app_step_intact. exact Hi. }
  rewrite sGet_intact by assumption. apply getItem_intact. exact Hi'.
Qed.

Lemma app_traffic_never_throws_witness :
  getItem (run_app [SaveUser "{}"; Reset true; SaveHistory "[]"] (after_init env_sync_ab))
          "migstar_history"
  = Normal (VStr "[]").
Proof.
  rewrite (app_traffic_never_throws [SaveUser "{}"; Reset true; SaveHistory "[]"]
             (after_init env_sync_ab) "migstar_history").
  - reflexivity.
  - split; reflexivity.
Defined.
